(** * NavX-DR: the dead-reckoning estimator of [src/App.js]

    A shallow embedding of the third (most complete) [App] component of
    [src/App.js]: bias removal, gyroscope yaw integration, frame rotation,
    damped velocity/position integration and the thresholded path sampler,
    together with the Start / Stop / Reset / Calibrate handlers.

    JavaScript numbers are IEEE 754 binary64 values; they are modelled by
    Rocq's primitive [float], whose operations are the same binary64
    operations (round to nearest, ties to even).  [Math.cos], [Math.sin] and
    [Math.hypot] belong to the JavaScript engine, not to the repository: the
    model takes them as parameters of a section.

    React state ([useState]) and refs ([useRef]) are fields of one record;
    every listener and handler is a function from record to record.  State
    setters are applied in program order, one callback at a time. *)

From Stdlib Require Import ZArith List Bool Lia.
From Stdlib Require Import Floats.
Import ListNotations.

Set Warnings "-inexact-float".
Local Open Scope float_scope.

(** ** Data *)

(** A sensor reading [{x, y, z}] (accelerometer, gyroscope, bias). *)
Module Vec3.
Record t : Set := mk { x : float; y : float; z : float }.
End Vec3.

(** A path point / position [{x, y}]. *)
Module Point.
Record t : Set := mk { x : float; y : float }.
End Point.

(** A world-frame velocity [{vx, vy}]. *)
Module Velocity.
Record t : Set := mk { vx : float; vy : float }.
End Velocity.

(** The hooks of [App]: [useState] values and [useRef] cells. *)
Record App : Set := mkApp {
  accel : Vec3.t;                 (* useState({x:0,y:0,z:0}) *)
  gyro : Vec3.t;                  (* useState({x:0,y:0,z:0}) *)
  isTracking : bool;              (* useState(false) *)
  path : list Point.t;            (* useState([{x:0,y:0}]) *)
  totalDistance : float;          (* useState(0) *)
  totalDistanceRef : float;       (* useRef(0) *)
  bias : Vec3.t;                  (* useState({x:0,y:0,z:0}) *)
  biasRef : Vec3.t;               (* useRef({x:0,y:0,z:0}) *)
  velocityRef : Velocity.t;       (* useRef({vx:0,vy:0}) *)
  positionRef : Point.t;          (* useRef({x:0,y:0}) *)
  lastTimeRef : option float;     (* useRef(null) *)
  gyroRef : Vec3.t;               (* useRef({x:0,y:0,z:0}) *)
  headingRef : float              (* useRef(0) *)
}.

Definition setAccel (v : Vec3.t) (s : App) : App :=
  mkApp v (gyro s) (isTracking s) (path s) (totalDistance s)
    (totalDistanceRef s) (bias s) (biasRef s) (velocityRef s) (positionRef s)
    (lastTimeRef s) (gyroRef s) (headingRef s).

Definition setGyro (v : Vec3.t) (s : App) : App :=
  mkApp (accel s) v (isTracking s) (path s) (totalDistance s)
    (totalDistanceRef s) (bias s) (biasRef s) (velocityRef s) (positionRef s)
    (lastTimeRef s) (gyroRef s) (headingRef s).

Definition setIsTracking (b : bool) (s : App) : App :=
  mkApp (accel s) (gyro s) b (path s) (totalDistance s)
    (totalDistanceRef s) (bias s) (biasRef s) (velocityRef s) (positionRef s)
    (lastTimeRef s) (gyroRef s) (headingRef s).

Definition setPath (p : list Point.t) (s : App) : App :=
  mkApp (accel s) (gyro s) (isTracking s) p (totalDistance s)
    (totalDistanceRef s) (bias s) (biasRef s) (velocityRef s) (positionRef s)
    (lastTimeRef s) (gyroRef s) (headingRef s).

Definition setTotalDistance (d : float) (s : App) : App :=
  mkApp (accel s) (gyro s) (isTracking s) (path s) d
    (totalDistanceRef s) (bias s) (biasRef s) (velocityRef s) (positionRef s)
    (lastTimeRef s) (gyroRef s) (headingRef s).

Definition set_totalDistanceRef (d : float) (s : App) : App :=
  mkApp (accel s) (gyro s) (isTracking s) (path s) (totalDistance s)
    d (bias s) (biasRef s) (velocityRef s) (positionRef s)
    (lastTimeRef s) (gyroRef s) (headingRef s).

Definition setBias (v : Vec3.t) (s : App) : App :=
  mkApp (accel s) (gyro s) (isTracking s) (path s) (totalDistance s)
    (totalDistanceRef s) v (biasRef s) (velocityRef s) (positionRef s)
    (lastTimeRef s) (gyroRef s) (headingRef s).

Definition set_biasRef (v : Vec3.t) (s : App) : App :=
  mkApp (accel s) (gyro s) (isTracking s) (path s) (totalDistance s)
    (totalDistanceRef s) (bias s) v (velocityRef s) (positionRef s)
    (lastTimeRef s) (gyroRef s) (headingRef s).

Definition set_velocityRef (v : Velocity.t) (s : App) : App :=
  mkApp (accel s) (gyro s) (isTracking s) (path s) (totalDistance s)
    (totalDistanceRef s) (bias s) (biasRef s) v (positionRef s)
    (lastTimeRef s) (gyroRef s) (headingRef s).

Definition set_positionRef (p : Point.t) (s : App) : App :=
  mkApp (accel s) (gyro s) (isTracking s) (path s) (totalDistance s)
    (totalDistanceRef s) (bias s) (biasRef s) (velocityRef s) p
    (lastTimeRef s) (gyroRef s) (headingRef s).

Definition set_lastTimeRef (t : option float) (s : App) : App :=
  mkApp (accel s) (gyro s) (isTracking s) (path s) (totalDistance s)
    (totalDistanceRef s) (bias s) (biasRef s) (velocityRef s) (positionRef s)
    t (gyroRef s) (headingRef s).

Definition set_gyroRef (v : Vec3.t) (s : App) : App :=
  mkApp (accel s) (gyro s) (isTracking s) (path s) (totalDistance s)
    (totalDistanceRef s) (bias s) (biasRef s) (velocityRef s) (positionRef s)
    (lastTimeRef s) v (headingRef s).

Definition set_headingRef (h : float) (s : App) : App :=
  mkApp (accel s) (gyro s) (isTracking s) (path s) (totalDistance s)
    (totalDistanceRef s) (bias s) (biasRef s) (velocityRef s) (positionRef s)
    (lastTimeRef s) (gyroRef s) h.

(** ** JavaScript primitives *)

(** [Math.PI], the binary64 value nearest to pi. *)
Definition Math_PI : float := 0x1.921fb54442d18p+1.

(** [ToBoolean] on a number: [+0], [-0] and [NaN] are falsy. *)
Definition truthy (v : float) : bool := negb ((v =? 0) || is_nan v).

(** [a || b] on numbers. *)
Definition js_or (a b : float) : float := if truthy a then a else b.

(** [Number.isFinite]: neither [NaN] nor an infinity. *)
Definition isFinite (v : float) : bool :=
  match Prim2SF v with
  | S754_nan | S754_infinity _ => false
  | _ => true
  end.

(** The constants of [updateDeadReckoning]. *)
Definition damping : float := 0.98.
Definition threshold : float := 0.005.

Definition origin : Point.t := Point.mk 0 0.
Definition zero3 : Vec3.t := Vec3.mk 0 0 0.

(** The component right after mounting (the [useState] / [useRef]
    initial values). *)
Definition initial : App :=
  mkApp zero3 zero3 false [origin] 0 0 zero3 zero3
    (Velocity.mk 0 0) origin None zero3 0.

(** ** Binary64 constants

    [Math.PI], [2 * Math.PI] and [3 * Math.PI] as mantissa and exponent
    (all three are exact binary64 values). *)

Definition mPI : positive := 7074237752028440.
Definition m3PI : positive := 5305678314021330.
Definition SF_PI : spec_float := S754_finite false mPI (-51).
Definition SF_2PI : spec_float := S754_finite false mPI (-50).
Definition SF_3PI : spec_float := S754_finite false m3PI (-49).

(** A binary64 value of magnitude at most [mb * 2^eb], for a bound with a
    53-bit mantissa [mb]. *)
Definition within (mb : positive) (eb : Z) (y : spec_float) : Prop :=
  match y with
  | S754_zero _ => True
  | S754_finite _ m e => (e < eb \/ (e = eb /\ Zpos m <= Zpos mb))%Z
  | _ => False
  end.

(** What [j] right shifts of the mantissa [m0] leave in a [shr_record]: the
    quotient by [2^j], with round and sticky bits clear when the division
    is exact. *)
Definition shr_exact (m0 j : Z) (mrs : shr_record) : Prop :=
  (shr_m mrs = m0 / 2 ^ j /\
   (m0 mod 2 ^ j = 0 -> shr_r mrs = false /\ shr_s mrs = false))%Z.

(** Stand-ins for the engine's functions, for evaluating the component
    on concrete inputs: truncated Maclaurin series, accurate on the heading
    range, and the textbook square root of the sum of squares.  Theorems
    are stated for arbitrary functions; only instances use these. *)
Module Engine.

Fixpoint series (n : nat) (k h2 : float) : float :=
  match n with
  | O => 1
  | S n' => 1 - h2 / (k * (k + 1)) * series n' (k + 2) h2
  end.

Definition cos (h : float) : float := series 14 1 (h * h).

Definition sin (h : float) : float := h * series 14 2 (h * h).

Definition hypot (dx dy : float) : float := sqrt (dx * dx + dy * dy).

End Engine.

(** What arrives from outside: sensor callbacks and button presses.  An
    accelerometer callback carries the value that [Date.now()] returns
    while it runs. *)
Inductive Event : Set :=
  | AccelSample (now : float) (data : Vec3.t)
  | GyroSample (data : Vec3.t)
  | PressStart
  | PressStop
  | PressReset
  | PressCalibrate.

(** ** The two earlier versions of the component

    [src/App.js] holds three versions of [App].  The first integrates the
    raw accelerometer reading; the second subtracts the calibration bias
    first.  Neither has a timestep guard, a heading, damping or a distance
    threshold: every integration step appends its position.  Their hooks
    are a subset of the third version's, so they run on the same record
    and leave the fields they do not have untouched. *)

(** The first version (no bias, no Calibrate button). *)
Module V1.

Definition updateDeadReckoning (now : float) (accelData : Vec3.t) (s : App)
  : App :=
  match lastTimeRef s with
  | None => set_lastTimeRef (Some now) s
  | Some last =>
    let dt := (now - last) / 1000 in
    let s := set_lastTimeRef (Some now) s in
    let ax := Vec3.x accelData in
    let ay := Vec3.y accelData in
    let vx := Velocity.vx (velocityRef s) in
    let vy := Velocity.vy (velocityRef s) in
    let newVx := vx + ax * dt in
    let newVy := vy + ay * dt in
    let s := set_velocityRef (Velocity.mk newVx newVy) s in
    let x := Point.x (positionRef s) in
    let y := Point.y (positionRef s) in
    let newX := x + newVx * dt in
    let newY := y + newVy * dt in
    let s := set_positionRef (Point.mk newX newY) s in
    setPath (path s ++ [Point.mk newX newY]) s
  end.

Definition accelListener (now : float) (data : Vec3.t) (s : App) : App :=
  let s := setAccel data s in
  if isTracking s then updateDeadReckoning now data s else s.

Definition gyroListener (data : Vec3.t) (s : App) : App := setGyro data s.

Definition handleStart (s : App) : App :=
  let s := set_velocityRef (Velocity.mk 0 0) s in
  let s := set_positionRef (Point.mk 0 0) s in
  let s := set_lastTimeRef None s in
  let s := setPath [Point.mk 0 0] s in
  setIsTracking true s.

Definition handleStop (s : App) : App :=
  let s := setIsTracking false s in
  set_lastTimeRef None s.

Definition handleReset (s : App) : App :=
  let s := setIsTracking false s in
  let s := set_velocityRef (Velocity.mk 0 0) s in
  let s := set_positionRef (Point.mk 0 0) s in
  let s := set_lastTimeRef None s in
  setPath [Point.mk 0 0] s.

(** One callback; this version has no Calibrate button to press. *)
Definition dispatch (s : App) (e : Event) : App :=
  match e with
  | AccelSample now data => accelListener now data s
  | GyroSample data => gyroListener data s
  | PressStart => handleStart s
  | PressStop => handleStop s
  | PressReset => handleReset s
  | PressCalibrate => s
  end.

Definition run (s : App) (es : list Event) : App := fold_left dispatch es s.

Inductive reachable : App -> Prop :=
  | reachable_initial : reachable initial
  | reachable_dispatch s e : reachable s -> reachable (dispatch s e).

End V1.

(** The second version (bias removal and Calibrate). *)
Module V2.

Definition updateDeadReckoning (now : float) (accelData : Vec3.t) (s : App)
  : App :=
  match lastTimeRef s with
  | None => set_lastTimeRef (Some now) s
  | Some last =>
    let dt := (now - last) / 1000 in
    let s := set_lastTimeRef (Some now) s in
    let ax := Vec3.x accelData - Vec3.x (biasRef s) in
    let ay := Vec3.y accelData - Vec3.y (biasRef s) in
    let vx := Velocity.vx (velocityRef s) in
    let vy := Velocity.vy (velocityRef s) in
    let newVx := vx + ax * dt in
    let newVy := vy + ay * dt in
    let s := set_velocityRef (Velocity.mk newVx newVy) s in
    let x := Point.x (positionRef s) in
    let y := Point.y (positionRef s) in
    let newX := x + newVx * dt in
    let newY := y + newVy * dt in
    let s := set_positionRef (Point.mk newX newY) s in
    setPath (path s ++ [Point.mk newX newY]) s
  end.

Definition accelListener (now : float) (data : Vec3.t) (s : App) : App :=
  let s := setAccel data s in
  if isTracking s then updateDeadReckoning now data s else s.

Definition gyroListener (data : Vec3.t) (s : App) : App := setGyro data s.

Definition handleStart (s : App) : App :=
  let s := set_velocityRef (Velocity.mk 0 0) s in
  let s := set_positionRef (Point.mk 0 0) s in
  let s := set_lastTimeRef None s in
  let s := setPath [Point.mk 0 0] s in
  setIsTracking true s.

Definition handleStop (s : App) : App :=
  let s := setIsTracking false s in
  set_lastTimeRef None s.

Definition handleReset (s : App) : App :=
  let s := setIsTracking false s in
  let s := set_velocityRef (Velocity.mk 0 0) s in
  let s := set_positionRef (Point.mk 0 0) s in
  let s := set_lastTimeRef None s in
  setPath [Point.mk 0 0] s.

Definition handleCalibrate (s : App) : App :=
  let s := set_biasRef (accel s) s in
  let s := setBias (accel s) s in
  handleReset s.

Definition dispatch (s : App) (e : Event) : App :=
  match e with
  | AccelSample now data => accelListener now data s
  | GyroSample data => gyroListener data s
  | PressStart => handleStart s
  | PressStop => handleStop s
  | PressReset => handleReset s
  | PressCalibrate => handleCalibrate s
  end.

Definition run (s : App) (es : list Event) : App := fold_left dispatch es s.

Inductive reachable : App -> Prop :=
  | reachable_initial : reachable initial
  | reachable_dispatch s e : reachable s -> reachable (dispatch s e).

End V2.

(** ** The AR scene of [src/NavXSLAM/js/SLAMScene.tsx]

    Every 100 ms the scene polls the camera pose and records it in a
    trail.  A [Vec3] there is a three-element array; it is modelled by
    [Vec3.t], with [x], [y], [z] for the indices 0, 1, 2.  [Math.sqrt] is
    the binary64 square root.  A poll is one event, run to completion; the
    updater passed to [setTrail] runs once per poll. *)
Module SLAMScene.

Record Scene : Set := mkScene {
  camPos : Vec3.t;                (* useState([0, 0, 0]) *)
  trail : list Vec3.t;            (* useState([]) *)
  totalDistance : float;          (* useState(0) *)
  hudPos : Vec3.t                 (* useState([0, 0, -1.5]) *)
}.

Definition initial : Scene :=
  mkScene (Vec3.mk 0 0 0) [] 0 (Vec3.mk 0 0 (-1.5)).

(** What a tick of the interval meets: no scene ref yet, a rejected
    [getCameraOrientationAsync()], or a camera whose [position] and
    [forward] may be missing. *)
Inductive Poll : Set :=
  | NoScene
  | Rejected
  | Camera (position forward : option Vec3.t).

(** [a ?? b]. *)
Definition nullish (a : option Vec3.t) (b : Vec3.t) : Vec3.t :=
  match a with
  | Some v => v
  | None => b
  end.

(** [l.slice(-n)]: the last [n] elements, all of [l] when it is
    shorter. *)
Definition slice_last {A : Type} (n : nat) (l : list A) : list A :=
  skipn (length l - n) l.

Definition MOVE_THRESHOLD : float := 0.01.

(** One tick of the interval. *)
Definition tick (p : Poll) (s : Scene) : Scene :=
  match p with
  | NoScene => s
  | Rejected => s
  | Camera position forward =>
    let pos := nullish position (Vec3.mk 0 0 0) in
    let fwd := nullish forward (Vec3.mk 0 0 (-1)) in
    let dist := 1.2 in
    let hud := Vec3.mk (Vec3.x pos + Vec3.x fwd * dist)
                       (Vec3.y pos + Vec3.y fwd * dist)
                       (Vec3.z pos + Vec3.z fwd * dist) in
    let prev := trail s in
    let extra :=
      if (0 <? length prev)%nat then
        let last := List.last prev (Vec3.mk 0 0 0) in
        let dx := Vec3.x pos - Vec3.x last in
        let dy := Vec3.y pos - Vec3.y last in
        let dz := Vec3.z pos - Vec3.z last in
        sqrt (dx * dx + dy * dy + dz * dz)
      else 0 in
    if (MOVE_THRESHOLD <? extra) || (length prev =? 0)%nat then
      let total := if 0 <? extra then totalDistance s + extra
                   else totalDistance s in
      mkScene pos (slice_last 400 (prev ++ [pos])) total hud
    else
      mkScene pos prev (totalDistance s) hud
  end.

(** The distance [extra] that [tick] computes, as a function of the pose
    and the trail. *)
Definition extra_of (pos : Vec3.t) (prev : list Vec3.t) : float :=
  if (0 <? length prev)%nat then
    let last := List.last prev (Vec3.mk 0 0 0) in
    let dx := Vec3.x pos - Vec3.x last in
    let dy := Vec3.y pos - Vec3.y last in
    let dz := Vec3.z pos - Vec3.z last in
    sqrt (dx * dx + dy * dy + dz * dz)
  else 0.

Definition run (s : Scene) (ps : list Poll) : Scene :=
  fold_left (fun s p => tick p s) ps s.

(** [pointsCount], the number the HUD shows as samples. *)
Definition pointsCount (s : Scene) : nat := length (trail s).

(** A pose with a [NaN] coordinate. *)
Definition has_nan (v : Vec3.t) : Prop :=
  Vec3.x v = nan \/ Vec3.y v = nan \/ Vec3.z v = nan.

End SLAMScene.

(** ** The component *)

Section Component.

(** The engine's [Math.cos], [Math.sin] and two-argument [Math.hypot]. *)
Variable Math_cos Math_sin : float -> float.
Variable Math_hypot : float -> float -> float.

(** [updateDeadReckoning(accelData)], with [now] the result of its call
    to [Date.now()]. *)
Definition updateDeadReckoning (now : float) (accelData : Vec3.t) (s : App)
  : App :=
  match lastTimeRef s with
  | None => set_lastTimeRef (Some now) s
  | Some last =>
    let dt := (now - last) / 1000 in
    if dt <=? 0 then s else
    let s := set_lastTimeRef (Some now) s in
    (* 1) heading from gyro *)
    let yawRate := js_or (Vec3.z (gyroRef s)) 0 in
    let s := set_headingRef (headingRef s + yawRate * dt) s in
    let s := if Math_PI <? headingRef s
             then set_headingRef (headingRef s - 2 * Math_PI) s else s in
    let s := if headingRef s <? - Math_PI
             then set_headingRef (headingRef s + 2 * Math_PI) s else s in
    (* 2) bias removal *)
    let axBody := Vec3.x accelData - Vec3.x (biasRef s) in
    let ayBody := Vec3.y accelData - Vec3.y (biasRef s) in
    (* 3) body frame to world frame *)
    let cosH := Math_cos (headingRef s) in
    let sinH := Math_sin (headingRef s) in
    let axWorld := axBody * cosH - ayBody * sinH in
    let ayWorld := axBody * sinH + ayBody * cosH in
    (* 4) velocity, damped *)
    let vx := Velocity.vx (velocityRef s) in
    let vy := Velocity.vy (velocityRef s) in
    let vx := vx + axWorld * dt in
    let vy := vy + ayWorld * dt in
    let vx := vx * damping in
    let vy := vy * damping in
    let s := set_velocityRef (Velocity.mk vx vy) s in
    (* 5) position *)
    let x := Point.x (positionRef s) in
    let y := Point.y (positionRef s) in
    let x := x + vx * dt in
    let y := y + vy * dt in
    let s := set_positionRef (Point.mk x y) s in
    (* 6) setPath((prev) => ...) *)
    let prev := path s in
    let last := List.last prev origin in
    let dx := x - Point.x last in
    let dy := y - Point.y last in
    let dist := Math_hypot dx dy in
    if threshold <? dist then
      let s := set_totalDistanceRef (totalDistanceRef s + dist) s in
      let s := setTotalDistance (totalDistanceRef s) s in
      setPath (prev ++ [Point.mk x y]) s
    else s
  end.

(** The accelerometer listener. *)
Definition accelListener (now : float) (data : Vec3.t) (s : App) : App :=
  let s := setAccel data s in
  if isTracking s then updateDeadReckoning now data s else s.

(** The gyroscope listener. *)
Definition gyroListener (data : Vec3.t) (s : App) : App :=
  let s := setGyro data s in
  set_gyroRef data s.

Definition resetState (s : App) : App :=
  let s := set_velocityRef (Velocity.mk 0 0) s in
  let s := set_positionRef (Point.mk 0 0) s in
  let s := set_lastTimeRef None s in
  let s := set_headingRef 0 s in
  let s := set_totalDistanceRef 0 s in
  let s := setTotalDistance 0 s in
  setPath [Point.mk 0 0] s.

Definition handleStart (s : App) : App :=
  let s := resetState s in
  setIsTracking true s.

Definition handleStop (s : App) : App :=
  let s := setIsTracking false s in
  set_lastTimeRef None s.

Definition handleReset (s : App) : App :=
  let s := setIsTracking false s in
  resetState s.

Definition handleCalibrate (s : App) : App :=
  let s := set_biasRef (accel s) s in
  let s := setBias (accel s) s in
  handleReset s.

(** One callback, run to completion. *)
Definition dispatch (s : App) (e : Event) : App :=
  match e with
  | AccelSample now data => accelListener now data s
  | GyroSample data => gyroListener data s
  | PressStart => handleStart s
  | PressStop => handleStop s
  | PressReset => handleReset s
  | PressCalibrate => handleCalibrate s
  end.

Definition run (s : App) (es : list Event) : App := fold_left dispatch es s.

(** The states the component can be in: those some sequence of callbacks
    leads to from [initial]. *)
Inductive reachable : App -> Prop :=
  | reachable_initial : reachable initial
  | reachable_dispatch s e : reachable s -> reachable (dispatch s e).

(** The heading statements of [updateDeadReckoning], on the heading alone:
    at most one subtraction and one addition of [2 * Math.PI]. *)
Definition wrapHeading (h : float) : float :=
  let h := if Math_PI <? h then h - 2 * Math_PI else h in
  if h <? - Math_PI then h + 2 * Math_PI else h.

(** The state an integration step of [updateDeadReckoning] ends in, field
    by field ([updateDeadReckoning_integrates] below). *)
Definition integrated (now dt : float) (accelData : Vec3.t) (s : App) : App :=
  let h := wrapHeading (headingRef s + js_or (Vec3.z (gyroRef s)) 0 * dt) in
  let axBody := Vec3.x accelData - Vec3.x (biasRef s) in
  let ayBody := Vec3.y accelData - Vec3.y (biasRef s) in
  let axWorld := axBody * Math_cos h - ayBody * Math_sin h in
  let ayWorld := axBody * Math_sin h + ayBody * Math_cos h in
  let vx := (Velocity.vx (velocityRef s) + axWorld * dt) * damping in
  let vy := (Velocity.vy (velocityRef s) + ayWorld * dt) * damping in
  let x := Point.x (positionRef s) + vx * dt in
  let y := Point.y (positionRef s) + vy * dt in
  let q := List.last (path s) origin in
  let dist := Math_hypot (x - Point.x q) (y - Point.y q) in
  let moved := threshold <? dist in
  mkApp (accel s) (gyro s) (isTracking s)
    (if moved then path s ++ [Point.mk x y] else path s)
    (if moved then totalDistanceRef s + dist else totalDistance s)
    (if moved then totalDistanceRef s + dist else totalDistanceRef s)
    (bias s) (biasRef s) (Velocity.mk vx vy) (Point.mk x y)
    (Some now) (gyroRef s) h.

(** *** Scenario vocabulary *)

(** The same accelerometer reading at each of the timestamps [ts]. *)
Definition feed (data : Vec3.t) (ts : list float) : list Event :=
  map (fun t => AccelSample t data) ts.

(** The position after each callback of a run. *)
Fixpoint positions (s : App) (es : list Event) : list Point.t :=
  match es with
  | [] => []
  | e :: es' => let s' := dispatch s e in positionRef s' :: positions s' es'
  end.

(** Timestamps after [t] for which [updateDeadReckoning] computes the
    timestep [dt] each time. *)
Fixpoint spaced (dt t : float) (ts : list float) : Prop :=
  match ts with
  | [] => True
  | t' :: ts' => (t' - t) / 1000 = dt /\ spaced dt t' ts'
  end.

(** The velocity/position recurrence for a constant world-frame
    acceleration [(ax, ay)], timestep [dt] and per-step factor [k] on the
    velocity.  With [k = 1] it is the undamped solution the damped run is
    compared with. *)
Definition recurrence (k ax ay dt : float) (vp : Velocity.t * Point.t)
  : Velocity.t * Point.t :=
  let '(v, p) := vp in
  let vx := (Velocity.vx v + ax * dt) * k in
  let vy := (Velocity.vy v + ay * dt) * k in
  (Velocity.mk vx vy, Point.mk (Point.x p + vx * dt) (Point.y p + vy * dt)).

(** The positions of [n] steps of the recurrence. *)
Fixpoint trace (k ax ay dt : float) (n : nat) (vp : Velocity.t * Point.t)
  : list Point.t :=
  match n with
  | O => []
  | S n' =>
    let vp' := recurrence k ax ay dt vp in
    snd vp' :: trace k ax ay dt n' vp'
  end.

(** What scenario B keeps true between samples: tracking, heading 0, a
    cached yaw rate of 0, no bias on x and y, last timestamp [t]. *)
Definition straight (s : App) (t : float) : Prop :=
  isTracking s = true /\
  headingRef s = 0 /\
  Vec3.z (gyroRef s) = 0 /\
  Vec3.x (biasRef s) = 0 /\
  Vec3.y (biasRef s) = 0 /\
  lastTimeRef s = Some t.

(** The heading after each callback of a run. *)
Fixpoint headings (s : App) (es : list Event) : list float :=
  match es with
  | [] => []
  | e :: es' => let s' := dispatch s e in headingRef s' :: headings s' es'
  end.

(** The closed range the wrap keeps the heading in. *)
Definition in_range (h : float) : Prop :=
  (- Math_PI <=? h) = true /\ (h <=? Math_PI) = true.

(** The precondition of the wrap at one callback: when the callback is an
    accelerometer sample that integrates, [yawRate * dt] changes the
    heading by at most one turn of [2 * Math.PI]. *)
Definition one_wrap (s : App) (e : Event) : Prop :=
  match e with
  | AccelSample now _ =>
    match lastTimeRef s with
    | Some last =>
      let dt := (now - last) / 1000 in
      isTracking s = true -> (dt <=? 0) = false ->
      let yawRate := js_or (Vec3.z (gyroRef s)) 0 in
      (abs (yawRate * dt) <=? 2 * Math_PI) = true
    | None => True
    end
  | _ => True
  end.

(** The precondition at every callback of a run. *)
Fixpoint gentle (s : App) (es : list Event) : Prop :=
  match es with
  | [] => True
  | e :: es' => one_wrap s e /\ gentle (dispatch s e) es'
  end.

(** What a stationary, calibrated session keeps true between samples:
    tracking, heading 0, a cached yaw rate of 0, bias [(bx, by)], no
    velocity, position and trajectory at the origin, no distance, last
    timestamp [t]. *)
Definition at_rest (bx b_y : float) (s : App) (t : float) : Prop :=
  isTracking s = true /\
  headingRef s = 0 /\
  Vec3.z (gyroRef s) = 0 /\
  Vec3.x (biasRef s) = bx /\
  Vec3.y (biasRef s) = b_y /\
  velocityRef s = Velocity.mk 0 0 /\
  positionRef s = Point.mk 0 0 /\
  path s = [Point.mk 0 0] /\
  totalDistanceRef s = 0 /\
  totalDistance s = 0 /\
  lastTimeRef s = Some t.

(** ** Properties *)

(** *** Binary64 arithmetic around pi

    Facts about [SpecFloat]'s rounding, through which [FloatAxioms]
    specifies the primitive operations, for the heading wrap. *)

Local Open Scope Z_scope.

(** **** Digits *)

(** Shifting a mantissa left adds to its number of digits and multiplies
    its value. *)
Lemma digits2_iter_xO (p k : positive) :
  digits2_pos (Pos.iter xO p k) = (digits2_pos p + k)%positive.
Proof.
  induction k as [|k IH] using Pos.peano_ind.
  - cbn. lia.
  - rewrite Pos.iter_succ. cbn. rewrite IH. lia.
Qed.

Lemma iter_xO_value (p k : positive) :
  Zpos (Pos.iter xO p k) = Zpos p * 2 ^ Zpos k.
Proof.
  induction k as [|k IH] using Pos.peano_ind.
  - cbn. lia.
  - rewrite Pos.iter_succ, Pos2Z.inj_xO, IH, Pos2Z.inj_succ.
    rewrite Z.pow_succ_r by lia. lia.
Qed.

(** A mantissa of [d] digits lies in [[2^(d-1), 2^d)], and conversely. *)
Lemma digits2_bounds (p : positive) :
  2 ^ (Zpos (digits2_pos p) - 1) <= Zpos p < 2 ^ Zpos (digits2_pos p).
Proof.
  induction p as [p IH|p IH|]; cbn [digits2_pos].
  - rewrite Pos2Z.inj_succ, Pos2Z.inj_xI.
    replace (Z.succ (Zpos (digits2_pos p)) - 1) with (Zpos (digits2_pos p)) by lia.
    rewrite Z.pow_succ_r by lia.
    replace (Zpos (digits2_pos p)) with (Z.succ (Zpos (digits2_pos p) - 1)) at 1 by lia.
    rewrite Z.pow_succ_r by lia.
    generalize dependent (2 ^ (Zpos (digits2_pos p) - 1)).
    generalize dependent (2 ^ Zpos (digits2_pos p)). intros; lia.
  - rewrite Pos2Z.inj_succ. change (Zpos p~0) with (2 * Zpos p).
    replace (Z.succ (Zpos (digits2_pos p)) - 1) with (Zpos (digits2_pos p)) by lia.
    rewrite Z.pow_succ_r by lia.
    replace (Zpos (digits2_pos p)) with (Z.succ (Zpos (digits2_pos p) - 1)) at 1 by lia.
    rewrite Z.pow_succ_r by lia.
    generalize dependent (2 ^ (Zpos (digits2_pos p) - 1)).
    generalize dependent (2 ^ Zpos (digits2_pos p)). intros; lia.
  - cbn. lia.
Qed.

Lemma digits2_le (p : positive) (n : Z) :
  0 <= n -> Zpos p < 2 ^ n -> Zpos (digits2_pos p) <= n.
Proof.
  intros Hn Hp. pose proof (digits2_bounds p) as [Hlo _].
  assert (H : 2 ^ (Zpos (digits2_pos p) - 1) < 2 ^ n) by lia.
  apply Z.pow_lt_mono_r_iff in H; lia.
Qed.

Lemma digits2_unique (p : positive) (n : Z) :
  0 < n -> 2 ^ (n - 1) <= Zpos p < 2 ^ n -> Zpos (digits2_pos p) = n.
Proof.
  intros Hn [Hlo Hhi]. pose proof (digits2_bounds p) as [Dlo Dhi].
  assert (H1 : 2 ^ (n - 1) < 2 ^ Zpos (digits2_pos p)) by lia.
  assert (H2 : 2 ^ (Zpos (digits2_pos p) - 1) < 2 ^ n) by lia.
  apply Z.pow_lt_mono_r_iff in H1; [|lia|lia].
  apply Z.pow_lt_mono_r_iff in H2; [|lia|lia]. lia.
Qed.

(** **** Comparison *)

(** [SFcompare] on two finite values of the same sign, read as a
    comparison of exponents first and mantissas second. *)
Lemma SFcompare_pos (m1 m2 : positive) (e1 e2 : Z) (c : comparison) :
  SFcompare (S754_finite false m1 e1) (S754_finite false m2 e2) = Some c ->
  match c with
  | Lt => e1 < e2 \/ (e1 = e2 /\ Zpos m1 < Zpos m2)
  | Eq => e1 = e2 /\ m1 = m2
  | Gt => e2 < e1 \/ (e1 = e2 /\ Zpos m2 < Zpos m1)
  end.
Proof.
  cbn [SFcompare]. change (Pos.compare_cont Eq m1 m2) with (Pos.compare m1 m2).
  destruct (Z.compare_spec e1 e2); destruct (Pos.compare_spec m1 m2);
    intros [= <-]; lia || auto.
Qed.

Lemma SFcompare_neg (m1 m2 : positive) (e1 e2 : Z) (c : comparison) :
  SFcompare (S754_finite true m1 e1) (S754_finite true m2 e2) = Some c ->
  match c with
  | Gt => e1 < e2 \/ (e1 = e2 /\ Zpos m1 < Zpos m2)
  | Eq => e1 = e2 /\ m1 = m2
  | Lt => e2 < e1 \/ (e1 = e2 /\ Zpos m2 < Zpos m1)
  end.
Proof.
  cbn [SFcompare]. change (Pos.compare_cont Eq m1 m2) with (Pos.compare m1 m2).
  destruct (Z.compare_spec e1 e2); destruct (Pos.compare_spec m1 m2);
    intros [= <-]; cbn [CompOpp]; lia || auto.
Qed.

Lemma SFcompare_pos_Lt (m1 m2 : positive) (e1 e2 : Z) :
  e1 < e2 \/ (e1 = e2 /\ Zpos m1 < Zpos m2) ->
  SFcompare (S754_finite false m1 e1) (S754_finite false m2 e2) = Some Lt.
Proof.
  intros H. cbn [SFcompare].
  change (Pos.compare_cont Eq m1 m2) with (Pos.compare m1 m2).
  destruct (Z.compare_spec e1 e2); destruct (Pos.compare_spec m1 m2);
    try reflexivity; lia.
Qed.

Lemma SFcompare_neg_Gt (m1 m2 : positive) (e1 e2 : Z) :
  e1 < e2 \/ (e1 = e2 /\ Zpos m1 < Zpos m2) ->
  SFcompare (S754_finite true m1 e1) (S754_finite true m2 e2) = Some Gt.
Proof.
  intros H. cbn [SFcompare].
  change (Pos.compare_cont Eq m1 m2) with (Pos.compare m1 m2).
  destruct (Z.compare_spec e1 e2); destruct (Pos.compare_spec m1 m2);
    try reflexivity; lia.
Qed.

Lemma SFcompare_refl_finite (s : bool) (m : positive) (e : Z) :
  SFcompare (S754_finite s m e) (S754_finite s m e) = Some Eq.
Proof.
  cbn [SFcompare]. change (Pos.compare_cont Eq m m) with (Pos.compare m m).
  rewrite Z.compare_refl, Pos.compare_refl. now destruct s.
Qed.

(** [SFcompare] is antisymmetric, so on comparable values [not (x < y)]
    gives [y <= x]. *)
Lemma SFcompare_antisym (x y : spec_float) :
  SFcompare y x = option_map CompOpp (SFcompare x y).
Proof.
  destruct x as [s|s| |s m e], y as [s'|s'| |s' m' e'];
    try destruct s; try destruct s'; try reflexivity; cbn [SFcompare option_map].
  - change (Pos.compare_cont Eq m' m) with (Pos.compare m' m).
    change (Pos.compare_cont Eq m m') with (Pos.compare m m').
    rewrite (Z.compare_antisym e e'), (Pos.compare_antisym m m').
    destruct (e ?= e')%Z; cbn [CompOpp]; try reflexivity;
      try now rewrite CompOpp_involutive.
  - change (Pos.compare_cont Eq m' m) with (Pos.compare m' m).
    change (Pos.compare_cont Eq m m') with (Pos.compare m m').
    rewrite (Z.compare_antisym e e'), (Pos.compare_antisym m m').
    destruct (e ?= e')%Z; cbn [CompOpp]; reflexivity.
Qed.

Lemma SFleb_of_not_ltb (x y : spec_float) :
  x <> S754_nan -> y <> S754_nan -> SFltb x y = false -> SFleb y x = true.
Proof.
  intros Hx Hy. unfold SFltb, SFleb. rewrite (SFcompare_antisym x y).
  destruct (SFcompare x y) as [[| |]|] eqn:E; cbn; try congruence.
  destruct x, y; cbn in E; congruence.
Qed.

(** [within mb eb] is what [<=] against [mb * 2^eb] and its opposite
    says. *)
Lemma within_compare (mb : positive) (eb : Z) (y : spec_float) :
  within mb eb y ->
  SFleb y (S754_finite false mb eb) = true /\
  SFleb (S754_finite true mb eb) y = true /\
  SFltb y (S754_finite true mb eb) = false /\
  SFltb (S754_finite false mb eb) y = false.
Proof.
  destruct y as [s|s| |s m e]; cbn [within]; try tauto.
  intros H.
  assert (C : Zpos m = Zpos mb /\ e = eb \/
              (e < eb \/ (e = eb /\ Zpos m < Zpos mb))) by lia.
  unfold SFleb, SFltb.
  destruct s.
  + replace (SFcompare (S754_finite true m e) (S754_finite false mb eb))
      with (Some Lt) by reflexivity.
    replace (SFcompare (S754_finite false mb eb) (S754_finite true m e))
      with (Some Gt) by reflexivity.
    destruct C as [[Hm ->]|C].
    * injection Hm as ->. rewrite SFcompare_refl_finite. repeat split.
    * rewrite (SFcompare_neg_Gt m mb e eb) by exact C.
      destruct (SFcompare (S754_finite true mb eb) (S754_finite true m e))
        as [[| |]|] eqn:E; try apply SFcompare_neg in E;
        try (cbn in E; discriminate); repeat split; lia.
  + replace (SFcompare (S754_finite false m e) (S754_finite true mb eb))
      with (Some Gt) by reflexivity.
    replace (SFcompare (S754_finite true mb eb) (S754_finite false m e))
      with (Some Lt) by reflexivity.
    destruct C as [[Hm ->]|C].
    * injection Hm as ->. rewrite SFcompare_refl_finite. repeat split.
    * rewrite (SFcompare_pos_Lt m mb e eb) by exact C.
      destruct (SFcompare (S754_finite false mb eb) (S754_finite false m e))
        as [[| |]|] eqn:E; try apply SFcompare_pos in E;
        try (cbn in E; discriminate); repeat split; lia.
Qed.

Lemma compare_within (mb : positive) (eb : Z) (y : spec_float) :
  SFleb y (S754_finite false mb eb) = true ->
  SFleb (S754_finite true mb eb) y = true ->
  within mb eb y.
Proof.
  unfold SFleb.
  destruct y as [s|s| |s m e]; try destruct s; try discriminate;
    try (intros; exact I); cbn [within].
  - intros _.
    destruct (SFcompare (S754_finite true mb eb) _) as [[| |]|] eqn:E;
      try discriminate; apply SFcompare_neg in E; lia.
  - destruct (SFcompare _ (S754_finite false mb eb)) as [[| |]|] eqn:E;
      try discriminate; apply SFcompare_pos in E;
      lia.
Qed.

Lemma abs_within (mb : positive) (eb : Z) (y : spec_float) :
  SFleb (SFabs y) (S754_finite false mb eb) = true -> within mb eb y.
Proof.
  unfold SFleb.
  destruct y as [s|s| |s m e]; try discriminate;
    try (intros; exact I); cbn [within SFabs].
  destruct (SFcompare _ (S754_finite false mb eb)) as [[| |]|] eqn:E;
    try discriminate; apply SFcompare_pos in E;
    lia.
Qed.

Lemma within_weaken (m : positive) (y : spec_float) :
  within m (-51) y \/ within m (-50) y -> within m3PI (-49) y.
Proof.
  destruct y as [s|s| |s my ey]; cbn [within]; try tauto. lia.
Qed.

(** **** Validity *)

(** A valid finite value above the subnormal range has a 53-bit mantissa;
    every valid finite value has a mantissa below 2^53 and an exponent of at
    least [emin]. *)
Lemma valid_normal (s : bool) (m : positive) (e : Z) :
  valid_binary (S754_finite s m e) = true -> -1074 < e ->
  4503599627370496 <= Zpos m < 9007199254740992.
Proof.
  cbn [SpecFloat.valid_binary]. unfold bounded, canonical_mantissa.
  intros H He. apply andb_prop in H as [H _]. apply Z.eqb_eq in H.
  assert (Hd : Zpos (digits2_pos m) = 53)
    by (revert H; unfold fexp, emin, prec, emax; lia).
  pose proof (digits2_bounds m) as B. rewrite Hd in B. exact B.
Qed.

Lemma valid_bounds (s : bool) (m : positive) (e : Z) :
  valid_binary (S754_finite s m e) = true ->
  Zpos m < 2 ^ 53 /\ -1074 <= e.
Proof.
  cbn [SpecFloat.valid_binary]. unfold bounded, canonical_mantissa.
  intros H. apply andb_prop in H as [H _]. apply Z.eqb_eq in H.
  pose proof (digits2_bounds m) as [_ Hhi].
  assert (Hd : Zpos (digits2_pos m) <= 53 /\ -1074 <= e)
    by (revert H; unfold fexp, emin, prec, emax; lia).
  split; [|lia].
  eapply Z.lt_le_trans; [exact Hhi|].
  apply Z.pow_le_mono_r; lia.
Qed.

(** **** Rounding *)

(** A canonical mantissa/exponent pair, normal or subnormal, is left as it
    is by the rounding. *)
Lemma binary_round_aux_fixed (sx : bool) (m : positive) (e : Z) :
  fexp prec emax (Zpos (digits2_pos m) + e) = e -> e <= 971 ->
  binary_round_aux prec emax sx (Zpos m) e loc_Exact = S754_finite sx m e.
Proof.
  intros Hf He.
  assert (F : fexp prec emax (Zdigits2 (Zpos m) + e) - e = 0)
    by (cbn [Zdigits2]; lia).
  unfold binary_round_aux, shr_fexp.
  cbn [shr_record_of_loc]. rewrite F.
  cbn [shr shr_m loc_of_shr_record round_nearest_even].
  rewrite F. cbn [shr shr_m].
  replace (e <=? emax - prec) with true; [reflexivity|].
  symmetry. apply Z.leb_le. unfold prec, emax. lia.
Qed.

(** A mantissa of at most 53 digits is rounded exactly: it is only
    shifted left to 53 digits. *)
Lemma binary_round_exact (sx : bool) (p : positive) (e : Z) :
  let d := Zpos (digits2_pos p) in
  d <= 53 -> -1074 <= d + e - 53 <= 971 ->
  exists p',
    binary_round prec emax sx p e = S754_finite sx p' (d + e - 53) /\
    (d = 53 -> p' = p) /\ (d = 52 -> p' = xO p).
Proof.
  intros d Hd He. unfold binary_round.
  replace (fexp prec emax (Zpos (digits2_pos p) + e)) with (d + e - 53)
    by (unfold fexp, emin, prec, emax; lia).
  unfold shl_align.
  replace (d + e - 53 - e) with (d - 53) by lia.
  destruct (d - 53) as [|k|k] eqn:Hk; try lia.
  - exists p. replace (d + e - 53) with e in * by lia.
    rewrite binary_round_aux_fixed
      by (fold d; unfold fexp, emin, prec, emax; lia).
    repeat split; auto; lia.
  - exists (Pos.iter xO p k).
    rewrite binary_round_aux_fixed;
      [|rewrite digits2_iter_xO; fold d;
        unfold fexp, emin, prec, emax; lia|lia].
    repeat split; [lia|].
    intros Hd52. assert (k = 1%positive) as -> by lia. reflexivity.
Qed.

(** Hence a value of magnitude at most pi, given at exponent -51 or -50,
    is rounded to itself. *)
Lemma round_in_band (sx : bool) (p : positive) (e : Z) :
  (e = -51 /\ Zpos p <= Zpos mPI) \/ (e = -50 /\ 2 * Zpos p <= Zpos mPI) ->
  within mPI (-51) (binary_round prec emax sx p e).
Proof.
  intros [[-> Hp]|[-> Hp]].
  - assert (Hd : Zpos (digits2_pos p) <= 53).
    { apply digits2_le; [lia|].
      eapply Z.le_lt_trans; [exact Hp|reflexivity]. }
    destruct (binary_round_exact sx p (-51)) as (p' & -> & H53 & _);
      [exact Hd|lia|].
    cbn [within].
    destruct (Z.eq_dec (Zpos (digits2_pos p)) 53) as [E|E].
    + right. rewrite (H53 E). lia.
    + left. lia.
  - assert (Hd : Zpos (digits2_pos p) <= 52).
    { apply digits2_le; [lia|].
      apply Z.mul_lt_mono_pos_l with (p := 2); [lia|].
      eapply Z.le_lt_trans; [exact Hp|reflexivity]. }
    destruct (binary_round_exact sx p (-50)) as (p' & -> & _ & H52);
      [lia|lia|].
    cbn [within].
    destruct (Z.eq_dec (Zpos (digits2_pos p)) 52) as [E|E].
    + right. rewrite (H52 E). lia.
    + left. lia.
Qed.

Lemma normalize_in_band (M e : Z) :
  (e = -51 /\ Z.abs M <= Zpos mPI) \/ (e = -50 /\ 2 * Z.abs M <= Zpos mPI) ->
  within mPI (-51) (binary_normalize prec emax M e false).
Proof.
  intros H. destruct M as [|p|p]; cbn [binary_normalize];
    [exact I|apply round_in_band; exact H|apply round_in_band; exact H].
Qed.

(** [shr_1] halves the mantissa; round and sticky bits stay clear exactly
    when nothing is shifted out. *)
Lemma shr_1_exact (m0 j : Z) (mrs : shr_record) :
  0 <= m0 -> 0 <= j ->
  shr_exact m0 j mrs -> shr_exact m0 (j + 1) (shr_1 mrs).
Proof.
  intros Hm Hj [Hq Hr]. destruct mrs as [m r s]. cbn [shr_m shr_r shr_s] in *.
  assert (Hpow : 2 ^ (j + 1) = 2 ^ j * 2) by (rewrite Z.pow_add_r; lia).
  assert (Hpos : 0 < 2 ^ j) by (apply Z.pow_pos_nonneg; lia).
  assert (Hdiv : m0 / 2 ^ (j + 1) = m / 2).
  { rewrite Hpow, <- Z.div_div by lia. now rewrite Hq. }
  assert (Hmod : m0 mod 2 ^ (j + 1) = 0 -> m0 mod 2 ^ j = 0 /\ m mod 2 = 0).
  { intros H. rewrite Hpow in H.
    rewrite Z.rem_mul_r in H by lia. rewrite <- Hq in H.
    pose proof (Z.mod_pos_bound m0 (2 ^ j) Hpos).
    pose proof (Z.mod_pos_bound m 2 ltac:(lia)). nia. }
  unfold shr_exact. rewrite Hdiv.
  assert (Hm' : 0 <= m) by (rewrite Hq; apply Z.div_pos; lia).
  destruct m as [|[p|p|]|p]; cbn [shr_1 shr_m shr_r shr_s]; try lia.
  - split; [reflexivity|]. intros H. apply Hmod in H as [H _].
    destruct (Hr H) as [-> ->]. now split.
  - split; [rewrite Pos2Z.inj_xI; apply Z.div_unique with 1; lia|].
    intros H. apply Hmod in H as [_ H]. rewrite Pos2Z.inj_xI in H.
    replace ((2 * Zpos p + 1) mod 2) with 1 in H; [lia|].
    apply Z.mod_unique with (Zpos p); lia.
  - split; [rewrite Pos2Z.inj_xO; apply Z.div_unique with 0; lia|].
    intros H. apply Hmod in H as [H _].
    destruct (Hr H) as [-> ->]. now split.
  - split; [reflexivity|]. intros H. apply Hmod in H as [_ H].
    discriminate H.
Qed.

Lemma iter_pos_shr_exact (m0 : Z) (k : positive) :
  0 <= m0 ->
  forall (j : Z) (mrs : shr_record), 0 <= j ->
  shr_exact m0 j mrs -> shr_exact m0 (j + Zpos k) (iter_pos shr_1 k mrs).
Proof.
  intros Hm. induction k as [k IH|k IH|]; intros j mrs Hj H; cbn [iter_pos].
  - replace (j + Zpos k~1) with (j + 1 + Zpos k + Zpos k) by lia.
    apply IH; [lia|]. apply IH; [lia|]. now apply shr_1_exact.
  - replace (j + Zpos k~0) with (j + Zpos k + Zpos k) by lia.
    apply IH; [lia|]. now apply IH.
  - now apply shr_1_exact.
Qed.

(** Rounding to nearest adds 0 or 1 to the truncated mantissa. *)
Lemma round_nearest_even_bounds (m : Z) (l : location) :
  m <= round_nearest_even m l <= m + 1.
Proof.
  destruct l as [|[| |]]; cbn [round_nearest_even]; try lia.
  destruct (Z.even m); lia.
Qed.

Lemma three_mPI : 3 * Zpos mPI = 4 * Zpos m3PI.
Proof.
  reflexivity.
Qed.

(** Rounding is monotone at [3 * Math.PI]: a value of magnitude at most
    [3 pi], given with an exponent of at most -51, rounds to a value of
    magnitude at most [3 pi]. *)
Lemma round_within (sx : bool) (p : positive) (e : Z) :
  -1074 <= e <= -51 ->
  Zpos p <= 3 * Zpos mPI * 2 ^ (-51 - e) ->
  within m3PI (-49) (binary_round prec emax sx p e).
Proof.
  intros He Hp. set (K := -51 - e) in *.
  pose proof (digits2_bounds p) as [Dlo Dhi].
  set (d := Zpos (digits2_pos p)) in *.
  assert (Hd1 : 1 <= d) by (unfold d; lia).
  assert (HK : 0 < 2 ^ K) by (apply Z.pow_pos_nonneg; lia).
  unfold binary_round. fold d.
  destruct (Z_le_gt_dec d 53) as [Hd|Hd].
  - (* nothing is shifted out *)
    set (e' := fexp prec emax (d + e)).
    assert (He' : -1074 <= e' <= e)
      by (unfold e', fexp, emin, prec, emax; lia).
    assert (Hfix : forall p', Zpos (digits2_pos p') + e' = d + e ->
              within m3PI (-49)
                (binary_round_aux prec emax sx (Zpos p') e' loc_Exact)).
    { intros p' Hp'. rewrite binary_round_aux_fixed; [|now rewrite Hp'|lia].
      cbn [within]. lia. }
    unfold shl_align. destruct (e' - e) as [|j|j] eqn:Ej; try lia.
    + replace e with e' by lia. apply Hfix. fold d. lia.
    + apply Hfix. rewrite digits2_iter_xO. fold d. lia.
  - (* [d - 53] bits are shifted out *)
    assert (Hdk : exists k, d - 53 = Zpos k)
      by (destruct (d - 53) as [|k|k] eqn:E; try lia; now exists k).
    destruct Hdk as [k Hk].
    assert (Hf : fexp prec emax (d + e) = e + Zpos k)
      by (unfold fexp, emin, prec, emax; lia).
    rewrite Hf. unfold shl_align.
    replace (e + Zpos k - e) with (Zpos k) by lia.
    unfold binary_round_aux.
    set (mrs0 := shr_record_of_loc (Zpos p) loc_Exact).
    set (mrs1 := iter_pos shr_1 k mrs0).
    assert (E1 : shr_fexp prec emax (Zpos p) e loc_Exact = (mrs1, e + Zpos k)).
    { unfold shr_fexp. cbn [Zdigits2]. fold d. rewrite Hf.
      replace (e + Zpos k - e) with (Zpos k) by lia. reflexivity. }
    rewrite E1. cbv beta iota.
    assert (X : shr_exact (Zpos p) (0 + Zpos k) mrs1).
    { apply iter_pos_shr_exact; try lia.
      split; [cbn; now rewrite Z.div_1_r|now split]. }
    destruct X as [Xm Xe]. replace (0 + Zpos k) with (Zpos k) in * by lia.
    assert (Pk : 0 < 2 ^ Zpos k) by (apply Z.pow_pos_nonneg; lia).
    assert (Pd : 2 ^ d = 2 ^ 53 * 2 ^ Zpos k)
      by (rewrite <- Z.pow_add_r by lia; f_equal; lia).
    assert (Pd1 : 2 ^ (d - 1) = 2 ^ 52 * 2 ^ Zpos k)
      by (rewrite <- Z.pow_add_r by lia; f_equal; lia).
    set (m' := Zpos p / 2 ^ Zpos k) in *.
    assert (Hm' : 2 ^ 52 <= m' < 2 ^ 53).
    { unfold m'. split.
      - apply Z.div_le_lower_bound; lia.
      - apply Z.div_lt_upper_bound; lia. }
    assert (Hmk : m' * 2 ^ Zpos k <= Zpos p).
    { unfold m'. rewrite Z.mul_comm. apply Z.mul_div_le. lia. }
    (* the exponent after the shift is at most -49 *)
    assert (He1 : e + Zpos k <= -49).
    { assert (H55 : 2 ^ (d - 1) < 2 ^ (55 + K)).
      { eapply Z.le_lt_trans; [exact Dlo|].
        eapply Z.le_lt_trans; [exact Hp|].
        rewrite Z.pow_add_r by lia.
        apply Z.mul_lt_mono_pos_r; [lia|reflexivity]. }
      apply Z.pow_lt_mono_r_iff in H55; lia. }
    (* at exponent -49 the shifted mantissa is at most that of 3 pi *)
    assert (Hm3 : e + Zpos k = -49 -> m' <= Zpos m3PI /\
                  (m' = Zpos m3PI -> Zpos p mod 2 ^ Zpos k = 0)).
    { intros E.
      assert (Ek : Zpos k = K + 2) by lia.
      assert (P2 : 2 ^ Zpos k = 4 * 2 ^ K)
        by (rewrite Ek, Z.pow_add_r by lia; change (2 ^ 2) with 4; lia).
      assert (Hp' : Zpos p <= Zpos m3PI * 2 ^ Zpos k)
        by (rewrite P2; pose proof three_mPI; nia).
      split.
      - apply Z.div_le_upper_bound; lia.
      - intros Em. rewrite Em in Hmk.
        assert (Zpos p = 2 ^ Zpos k * Zpos m3PI) as -> by lia.
        rewrite Z.mul_comm. apply Z.mod_mul. lia. }
    set (l1 := loc_of_shr_record mrs1).
    pose proof (round_nearest_even_bounds (shr_m mrs1) l1) as Hr.
    assert (Hrx : Zpos p mod 2 ^ Zpos k = 0 ->
                  round_nearest_even (shr_m mrs1) l1 = m').
    { intros H. destruct (Xe H) as [Er Es]. unfold l1.
      destruct mrs1 as [m1 r1 s1]. cbn in Er, Es, Xm |- *. now subst. }
    fold l1. rewrite Xm in Hr, Hrx |- *.
    set (m1 := round_nearest_even m' l1) in *.
    clearbody m1 l1 mrs1. clear Xm Xe E1.
    destruct (Z.eq_dec m1 (2 ^ 53)) as [Ec|Ec].
    + (* the round-up carries into a 54th bit *)
      rewrite Ec.
      assert (E2 : shr_fexp prec emax (2 ^ 53) (e + Zpos k) loc_Exact
                   = (Build_shr_record (2 ^ 52) false false, e + Zpos k + 1)).
      { unfold shr_fexp. change (Zdigits2 (2 ^ 53)) with 54.
        replace (fexp prec emax (54 + (e + Zpos k)) - (e + Zpos k)) with 1
          by (unfold fexp, emin, prec, emax; lia).
        reflexivity. }
      rewrite E2. cbn [shr_m]. change (2 ^ 52) with (Zpos 4503599627370496).
      cbv iota beta.
      replace (e + Zpos k + 1 <=? emax - prec) with true
        by (symmetry; apply Z.leb_le; unfold prec, emax; lia).
      cbn [within].
      assert (e + Zpos k <> -49).
      { intros E. destruct (Hm3 E) as [H3 _].
        change (2 ^ 53) with 9007199254740992 in *. unfold m3PI in *. lia. }
      unfold m3PI. lia.
    + assert (Hm1 : 2 ^ 52 <= m1 < 2 ^ 53) by lia.
      destruct m1 as [|q|q]; try (change (2 ^ 52) with 4503599627370496 in *; lia).
      assert (Dq : Zpos (digits2_pos q) = 53)
        by (apply digits2_unique; [lia|exact Hm1]).
      assert (E2 : shr_fexp prec emax (Zpos q) (e + Zpos k) loc_Exact
                   = (Build_shr_record (Zpos q) false false, e + Zpos k)).
      { unfold shr_fexp. cbn [Zdigits2]. rewrite Dq.
        replace (fexp prec emax (53 + (e + Zpos k)) - (e + Zpos k)) with 0
          by (unfold fexp, emin, prec, emax; lia).
        reflexivity. }
      rewrite E2. cbn [shr_m]. cbv iota beta.
      replace (e + Zpos k <=? emax - prec) with true
        by (symmetry; apply Z.leb_le; unfold prec, emax; lia).
      cbn [within].
      destruct (Z.eq_dec (e + Zpos k) (-49)) as [E|E]; [|left; lia].
      right. split; [exact E|].
      destruct (Hm3 E) as [H3 H3'].
      destruct (Z.eq_dec m' (Zpos m3PI)) as [Em|Em].
      * rewrite (Hrx (H3' Em)) in *. lia.
      * lia.
Qed.

Lemma normalize_within (M ez : Z) :
  -1074 <= ez <= -51 ->
  Z.abs M <= 3 * Zpos mPI * 2 ^ (-51 - ez) ->
  within m3PI (-49) (binary_normalize prec emax M ez false).
Proof.
  intros He HM. destruct M as [|p|p]; cbn [binary_normalize];
    [exact I|apply round_within; [exact He|exact HM]..].
Qed.

(** **** Sums and differences *)

(** The two mantissas of a sum, aligned on the smaller exponent. *)
Lemma shl_align_value (m : positive) (e ez : Z) :
  ez <= e -> Zpos (fst (shl_align m e ez)) = Zpos m * 2 ^ (e - ez).
Proof.
  intros H. unfold shl_align.
  destruct (ez - e) as [|j|j] eqn:E; try lia; cbn [fst].
  - replace (e - ez) with 0 by lia. lia.
  - rewrite iter_xO_value. f_equal. f_equal. lia.
Qed.

Lemma aligned_bound (mb m : positive) (eb e ez : Z) :
  Zpos m < 2 ^ 53 -> 2 ^ 52 <= Zpos mb -> ez <= e ->
  e < eb \/ (e = eb /\ Zpos m <= Zpos mb) ->
  Zpos m * 2 ^ (e - ez) <= Zpos mb * 2 ^ (eb - ez).
Proof.
  intros Hm Hb Hz [He|[-> Hle]].
  - assert (P : 0 < 2 ^ (e - ez)) by (apply Z.pow_pos_nonneg; lia).
    assert (Q : 2 ^ (eb - ez) = 2 * 2 ^ (eb - e - 1) * 2 ^ (e - ez)).
    { replace (eb - ez) with (Z.succ (eb - e - 1) + (e - ez)) by lia.
      rewrite Z.pow_add_r, Z.pow_succ_r by lia. reflexivity. }
    assert (R : 1 <= 2 ^ (eb - e - 1))
      by (apply (Z.pow_le_mono_r 2 0); lia).
    rewrite Q. change (2 ^ 53) with (2 * 2 ^ 52) in Hm. nia.
  - apply Z.mul_le_mono_nonneg_r; [|exact Hle].
    apply Z.pow_nonneg. lia.
Qed.

(** For [pi < x <= 3 pi] the difference [x - 2 pi] is exact and lies in
    [[-pi, pi]]; likewise [x + 2 pi] for [-3 pi <= x < -pi]. *)
Lemma sub_2pi_in_band (x : spec_float) :
  valid_binary x = true ->
  SFltb SF_PI x = true -> SFleb x SF_3PI = true ->
  within mPI (-51) (SF64sub x SF_2PI).
Proof.
  intros Hv Hlo Hhi.
  destruct x as [s|s| |s m e]; try destruct s; try discriminate.
  unfold SFltb in Hlo. unfold SFleb in Hhi.
  destruct (SFcompare SF_PI _) as [[| |]|] eqn:Elo; try discriminate.
  apply SFcompare_pos in Elo.
  assert (Ehi : -49 < e -> False).
  { intros He.
    destruct (SFcompare _ SF_3PI) as [[| |]|] eqn:E; try discriminate;
      apply SFcompare_pos in E; lia. }
  assert (Ehi' : e = -49 -> Zpos m <= Zpos m3PI).
  { intros He.
    destruct (SFcompare _ SF_3PI) as [[| |]|] eqn:E; try discriminate;
      apply SFcompare_pos in E; [|lia].
    destruct E as [_ E]. rewrite E. lia. }
  pose proof (valid_normal _ _ _ Hv ltac:(lia)) as Hm.
  assert (He : e = -51 \/ e = -50 \/ e = -49) by lia.
  destruct He as [->|[->| ->]].
  - change (SF64sub (S754_finite false m (-51)) SF_2PI)
      with (binary_normalize prec emax (Zpos m - Zpos (xO mPI)) (-51) false).
    apply normalize_in_band. left. split; [reflexivity|].
    unfold mPI in *. lia.
  - change (SF64sub (S754_finite false m (-50)) SF_2PI)
      with (binary_normalize prec emax (Zpos m - Zpos mPI) (-50) false).
    apply normalize_in_band. right. split; [reflexivity|].
    unfold mPI in *. lia.
  - change (SF64sub (S754_finite false m (-49)) SF_2PI)
      with (binary_normalize prec emax (Zpos (xO m) - Zpos mPI) (-50) false).
    apply normalize_in_band. right. split; [reflexivity|].
    specialize (Ehi' eq_refl). unfold mPI, m3PI in *. lia.
Qed.

Lemma add_2pi_in_band (x : spec_float) :
  valid_binary x = true ->
  SFltb x (SFopp SF_PI) = true -> SFleb (SFopp SF_3PI) x = true ->
  within mPI (-51) (SF64add x SF_2PI).
Proof.
  intros Hv Hlo Hhi.
  destruct x as [s|s| |s m e]; try destruct s; try discriminate.
  unfold SFltb in Hlo. unfold SFleb in Hhi. cbn [SFopp SF_PI SF_3PI negb] in *.
  destruct (SFcompare _ (S754_finite true mPI _)) as [[| |]|] eqn:Elo; try discriminate.
  apply SFcompare_neg in Elo.
  assert (Ehi : -49 < e -> False).
  { intros He.
    destruct (SFcompare (S754_finite true m3PI _) _) as [[| |]|] eqn:E; try discriminate;
      apply SFcompare_neg in E; lia. }
  assert (Ehi' : e = -49 -> Zpos m <= Zpos m3PI).
  { intros He.
    destruct (SFcompare (S754_finite true m3PI _) _) as [[| |]|] eqn:E; try discriminate;
      apply SFcompare_neg in E; [|lia].
    destruct E as [_ E]. rewrite E. lia. }
  pose proof (valid_normal _ _ _ Hv ltac:(lia)) as Hm.
  assert (He : e = -51 \/ e = -50 \/ e = -49) by lia.
  destruct He as [->|[->| ->]].
  - change (SF64add (S754_finite true m (-51)) SF_2PI)
      with (binary_normalize prec emax (Zneg m + Zpos (xO mPI)) (-51) false).
    apply normalize_in_band. left. split; [reflexivity|].
    unfold mPI in *. lia.
  - change (SF64add (S754_finite true m (-50)) SF_2PI)
      with (binary_normalize prec emax (Zneg m + Zpos mPI) (-50) false).
    apply normalize_in_band. right. split; [reflexivity|].
    unfold mPI in *. lia.
  - change (SF64add (S754_finite true m (-49)) SF_2PI)
      with (binary_normalize prec emax (Zneg (xO m) + Zpos mPI) (-50) false).
    apply normalize_in_band. right. split; [reflexivity|].
    specialize (Ehi' eq_refl). unfold mPI, m3PI in *. lia.
Qed.

(** [|x| <= pi] and [|y| <= 2 pi] give [|x + y| <= 3 pi] for the rounded
    sum. *)
Lemma add_within (x y : spec_float) :
  valid_binary x = true -> valid_binary y = true ->
  within mPI (-51) x -> within mPI (-50) y ->
  within m3PI (-49) (SF64add x y).
Proof.
  intros Vx Vy Hx Hy.
  destruct x as [sx|sx| |sx mx ex]; try contradiction;
    destruct y as [sy|sy| |sy my ey]; try contradiction.
  - destruct sx, sy; exact I.
  - apply (within_weaken mPI). now right.
  - apply (within_weaken mPI). now left.
  - cbn [within] in Hx, Hy.
    apply valid_bounds in Vx as [Bx Ex]. apply valid_bounds in Vy as [By Ey].
    unfold SF64add, SFadd.
    set (ez := Z.min ex ey).
    assert (Hez : -1074 <= ez <= -51 /\ ez <= ex /\ ez <= ey)
      by (unfold ez; lia).
    rewrite !shl_align_value by lia.
    apply normalize_within; [lia|].
    assert (B52 : 2 ^ 52 <= Zpos mPI) by (vm_compute; discriminate).
    pose proof (aligned_bound mPI mx (-51) ex ez Bx B52 ltac:(lia) Hx) as Ax.
    pose proof (aligned_bound mPI my (-50) ey ez By B52 ltac:(lia) Hy) as Ay.
    replace (-50 - ez) with (Z.succ (-51 - ez)) in Ay by lia.
    rewrite Z.pow_succ_r in Ay by lia.
    assert (0 < Zpos mx * 2 ^ (ex - ez))
      by (apply Z.mul_pos_pos; [lia|apply Z.pow_pos_nonneg; lia]).
    assert (0 < Zpos my * 2 ^ (ey - ez))
      by (apply Z.mul_pos_pos; [lia|apply Z.pow_pos_nonneg; lia]).
    destruct sx, sy; cbn [cond_Zopp]; lia.
Qed.

Local Close Scope Z_scope.

(** **** The wrap on floats *)

(** The constants of the wrap, as [Prim2SF] returns them. *)
Lemma Prim2SF_PI : Prim2SF Math_PI = SF_PI.
Proof.
  vm_compute. reflexivity.
Qed.

Lemma Prim2SF_2PI : Prim2SF (2 * Math_PI) = SF_2PI.
Proof.
  vm_compute. reflexivity.
Qed.

Lemma Prim2SF_3PI : Prim2SF (3 * Math_PI) = SF_3PI.
Proof.
  vm_compute. reflexivity.
Qed.

Lemma Prim2SF_opp_PI : Prim2SF (- Math_PI) = SFopp SF_PI.
Proof.
  vm_compute. reflexivity.
Qed.

Lemma Prim2SF_opp_3PI : Prim2SF (- (3 * Math_PI)) = SFopp SF_3PI.
Proof.
  vm_compute. reflexivity.
Qed.

(** One wrap brings a heading sum within [[-3 pi, 3 pi]] back into
    [[-pi, pi]]. *)
Lemma wrapHeading_range (h : float) :
  (- (3 * Math_PI) <=? h) = true -> (h <=? 3 * Math_PI) = true ->
  (- Math_PI <=? wrapHeading h) = true /\ (wrapHeading h <=? Math_PI) = true.
Proof.
  intros Hlo Hhi. unfold wrapHeading. cbv zeta.
  rewrite leb_spec, Prim2SF_opp_3PI in Hlo. rewrite leb_spec, Prim2SF_3PI in Hhi.
  assert (band : forall y, within mPI (-51) (Prim2SF y) ->
            (y <? - Math_PI) = false /\
            (- Math_PI <=? y) = true /\ (y <=? Math_PI) = true).
  { intros y Hy. apply within_compare in Hy as (H1 & H2 & H3 & _).
    rewrite ltb_spec, !leb_spec, Prim2SF_opp_PI, Prim2SF_PI. auto. }
  destruct (Math_PI <? h) eqn:E1.
  - rewrite ltb_spec, Prim2SF_PI in E1.
    destruct (band (h - 2 * Math_PI)) as (-> & H2 & H3); [|now split].
    rewrite sub_spec, Prim2SF_2PI.
    apply sub_2pi_in_band; auto using Prim2SF_valid.
  - destruct (h <? - Math_PI) eqn:E2.
    + rewrite ltb_spec, Prim2SF_opp_PI in E2.
      destruct (band (h + 2 * Math_PI)) as (_ & H2 & H3); [|now split].
      rewrite add_spec, Prim2SF_2PI.
      apply add_2pi_in_band; auto using Prim2SF_valid.
    + rewrite ltb_spec in E1, E2. rewrite !leb_spec.
      rewrite Prim2SF_PI in *. rewrite Prim2SF_opp_PI in *.
      assert (Hn : Prim2SF h <> S754_nan).
      { intros E. rewrite E in Hhi. discriminate. }
      split; apply SFleb_of_not_ltb; auto; discriminate.
Qed.

(** A heading in range plus a change of at most one turn is within
    [[-3 pi, 3 pi]]. *)
Lemma heading_sum_range (h dh : float) :
  in_range h -> (abs dh <=? 2 * Math_PI) = true ->
  (- (3 * Math_PI) <=? h + dh) = true /\ (h + dh <=? 3 * Math_PI) = true.
Proof.
  intros [Hlo Hhi] Hd.
  rewrite leb_spec, Prim2SF_opp_PI in Hlo. rewrite leb_spec, Prim2SF_PI in Hhi.
  rewrite leb_spec, abs_spec, Prim2SF_2PI in Hd.
  rewrite !leb_spec, Prim2SF_opp_3PI, Prim2SF_3PI, add_spec.
  destruct (within_compare m3PI (-49) (SF64add (Prim2SF h) (Prim2SF dh)))
    as (H1 & H2 & _); [|now split].
  apply add_within; auto using Prim2SF_valid.
  - now apply compare_within.
  - now apply abs_within.
Qed.

(** *** Idle: samples are for display only *)

(** C5. While [isTracking] is false, an accelerometer sample only replaces
    the latest raw reading [accel]: [updateDeadReckoning] is not called, so
    heading, velocity, position, trajectory, total distance and the last
    timestamp are what they were. *)
Theorem idle_sample_display_only (now : float) (data : Vec3.t) (s : App) :
  isTracking s = false ->
  let s' := accelListener now data s in
  s' = setAccel data s /\
  accel s' = data /\
  headingRef s' = headingRef s /\
  velocityRef s' = velocityRef s /\
  positionRef s' = positionRef s /\
  path s' = path s /\
  totalDistance s' = totalDistance s /\
  totalDistanceRef s' = totalDistanceRef s /\
  lastTimeRef s' = lastTimeRef s.
Proof.
  intros Hidle s'.
  assert (E : s' = setAccel data s).
  { unfold s', accelListener. cbn. now rewrite Hidle. }
  rewrite E. repeat split.
Qed.

(** *** Stop *)

(** C9. [handleStop], pressed while tracking, turns tracking off and clears
    the last timestamp; trajectory, total distance, velocity, position,
    heading, the calibration bias and the cached readings keep their
    values. *)
Theorem stop_keeps_session (s : App) :
  isTracking s = true ->
  let s' := handleStop s in
  isTracking s' = false /\
  lastTimeRef s' = None /\
  path s' = path s /\
  totalDistance s' = totalDistance s /\
  totalDistanceRef s' = totalDistanceRef s /\
  velocityRef s' = velocityRef s /\
  positionRef s' = positionRef s /\
  headingRef s' = headingRef s /\
  bias s' = bias s /\
  biasRef s' = biasRef s /\
  accel s' = accel s /\
  gyro s' = gyro s /\
  gyroRef s' = gyroRef s.
Proof.
  intros _ s'. repeat split.
Qed.

(** *** Calibrate *)

(** C7. In any state, [handleCalibrate] with latest raw accelerometer
    reading (0.2, -0.1, 9.8) stores that reading as the bias (both the ref
    read by the integrator and the displayed state) and clears the session
    as [handleReset] does: trajectory [[{0,0}]], tracking off, distance,
    velocity, position and heading 0, no last timestamp. *)
Theorem calibrate_sets_bias_and_resets (s : App) :
  accel s = Vec3.mk 0.2 (-0.1) 9.8 ->
  let s' := handleCalibrate s in
  biasRef s' = Vec3.mk 0.2 (-0.1) 9.8 /\
  bias s' = Vec3.mk 0.2 (-0.1) 9.8 /\
  path s' = [Point.mk 0 0] /\
  isTracking s' = false /\
  totalDistance s' = 0 /\
  totalDistanceRef s' = 0 /\
  velocityRef s' = Velocity.mk 0 0 /\
  positionRef s' = Point.mk 0 0 /\
  headingRef s' = 0 /\
  lastTimeRef s' = None /\
  s' = handleReset (setBias (accel s) (set_biasRef (accel s) s)) /\
  (path s', isTracking s', totalDistance s', totalDistanceRef s',
   velocityRef s', positionRef s', headingRef s', lastTimeRef s')
  = (path initial, isTracking initial, totalDistance initial,
     totalDistanceRef initial, velocityRef initial, positionRef initial,
     headingRef initial, lastTimeRef initial).
Proof.
  intros Hacc s'. unfold s', handleCalibrate. cbn. rewrite Hacc.
  repeat split.
Qed.

(** *** The timestep guard *)

(** A positive timestep fails the guard [dt <= 0]. *)
Lemma positive_not_leb (d : float) : (0 <? d) = true -> (d <=? 0) = false.
Proof.
  rewrite ltb_spec, leb_spec.
  change (Prim2SF 0) with (S754_zero false).
  destruct (Prim2SF d) as [[|]|[|]| |[|] m e]; cbn; congruence.
Qed.

(** An integration step, field by field. *)
Lemma updateDeadReckoning_integrates (now last : float) (data : Vec3.t)
  (s : App) :
  lastTimeRef s = Some last ->
  ((now - last) / 1000 <=? 0) = false ->
  updateDeadReckoning now data s = integrated now ((now - last) / 1000) data s.
Proof.
  intros Hlast Hdt. unfold updateDeadReckoning. rewrite Hlast, Hdt.
  destruct s as [a g tr pa td tdr b br v p lt gr h].
  unfold integrated, wrapHeading.
  repeat (cbv beta iota zeta delta
    [set_lastTimeRef set_headingRef set_velocityRef set_positionRef
     set_totalDistanceRef setTotalDistance setPath
     accel gyro isTracking path totalDistance totalDistanceRef bias biasRef
     velocityRef positionRef lastTimeRef gyroRef headingRef];
   match goal with
   | |- context [if ?c then _ else _] =>
     lazymatch c with
     | context [if _ then _ else _] => fail
     | _ => destruct c eqn:?
     end
   end).
  all: reflexivity.
Qed.

(** C1, as the code has it. While tracking with a last timestamp [last], a
    sample at [now] gives [dt = (now - last) / 1000].  If [dt <= 0] the
    sample is discarded: only the raw reading changes, and the integrator
    state (heading, velocity, position, trajectory, total distance) and
    also the last timestamp keep their values.  Otherwise the last
    timestamp becomes [now]. *)
Theorem nonpositive_dt_discards (now last : float) (data : Vec3.t) (s : App) :
  isTracking s = true ->
  lastTimeRef s = Some last ->
  let dt := (now - last) / 1000 in
  let s' := accelListener now data s in
  ((dt <=? 0) = true ->
     s' = setAccel data s /\
     headingRef s' = headingRef s /\
     velocityRef s' = velocityRef s /\
     positionRef s' = positionRef s /\
     path s' = path s /\
     totalDistance s' = totalDistance s /\
     totalDistanceRef s' = totalDistanceRef s /\
     lastTimeRef s' = Some last) /\
  ((dt <=? 0) = false -> lastTimeRef s' = Some now).
Proof.
  intros Htr Hlast dt s'. split; intros Hdt.
  - assert (E : s' = setAccel data s).
    { unfold s', accelListener, updateDeadReckoning. cbn.
      rewrite Htr, Hlast. fold dt. now rewrite Hdt. }
    rewrite E. cbn. repeat split. exact Hlast.
  - unfold s', accelListener, updateDeadReckoning. cbn.
    rewrite Htr, Hlast. fold dt. rewrite Hdt.
    repeat match goal with |- context [if ?c then _ else _] => destruct c end;
      reflexivity.
Qed.

(** *** The integration step *)

(** C3. An integration step (last timestamp [last], [dt > 0]) rotates the
    bias-corrected acceleration by the updated heading and then sets
    [vx' = (vx + ax_world*dt) * 0.98], [vy' = (vy + ay_world*dt) * 0.98],
    [x' = x + vx'*dt], [y' = y + vy'*dt]: the factor 0.98 is applied once
    per step whatever [dt] is, and nothing clamps the velocity. *)
Theorem step_velocity_position (now last : float) (data : Vec3.t) (s : App) :
  lastTimeRef s = Some last ->
  let dt := (now - last) / 1000 in
  (0 <? dt) = true ->
  let s' := updateDeadReckoning now data s in
  let axBody := Vec3.x data - Vec3.x (biasRef s) in
  let ayBody := Vec3.y data - Vec3.y (biasRef s) in
  let ax_world :=
    axBody * Math_cos (headingRef s') - ayBody * Math_sin (headingRef s') in
  let ay_world :=
    axBody * Math_sin (headingRef s') + ayBody * Math_cos (headingRef s') in
  let vx' := (Velocity.vx (velocityRef s) + ax_world * dt) * 0.98 in
  let vy' := (Velocity.vy (velocityRef s) + ay_world * dt) * 0.98 in
  velocityRef s' = Velocity.mk vx' vy' /\
  positionRef s' =
    Point.mk (Point.x (positionRef s) + vx' * dt)
             (Point.y (positionRef s) + vy' * dt).
Proof.
  intros Hlast dt Hdt. apply positive_not_leb in Hdt.
  unfold updateDeadReckoning. rewrite Hlast. fold dt. rewrite Hdt. cbn.
  repeat match goal with |- context [if ?c then _ else _] => destruct c end;
    cbn; split; reflexivity.
Qed.

(** *** The path sampler *)

(** C4, as the code has it. In an integration step the [setPath] updater
    measures the distance [d] of the new position from the last recorded
    point (the origin when the trajectory is empty).  The position is
    appended, and [d] added to the total distance, exactly when
    [d > 0.005]; otherwise trajectory and total distance are untouched.
    The rule has no exception for the first position of a session.  A
    distance of 0.004 is discarded, a distance of 0.006 is recorded. *)
Theorem sampler_threshold (now last : float) (data : Vec3.t) (s : App) :
  lastTimeRef s = Some last ->
  ((now - last) / 1000 <=? 0) = false ->
  let s' := updateDeadReckoning now data s in
  let p := positionRef s' in
  let q := List.last (path s) (Point.mk 0 0) in
  let d := Math_hypot (Point.x p - Point.x q) (Point.y p - Point.y q) in
  let appended :=
    path s' = path s ++ [p] /\
    totalDistanceRef s' = totalDistanceRef s + d /\
    totalDistance s' = totalDistanceRef s + d in
  let discarded :=
    path s' = path s /\
    totalDistanceRef s' = totalDistanceRef s /\
    totalDistance s' = totalDistance s in
  ((0.005 <? d) = true -> appended) /\
  ((0.005 <? d) = false -> discarded) /\
  (d = 0.004 -> discarded) /\
  (d = 0.006 -> appended).
Proof.
  intros Hlast Hdt.
  rewrite (updateDeadReckoning_integrates now last data s Hlast Hdt).
  unfold integrated. cbv zeta.
  cbn [path totalDistance totalDistanceRef positionRef Point.x Point.y].
  fold origin.
  match goal with
  | |- context [threshold <? ?e] => set (d := e)
  end.
  change threshold with 0.005.
  split; [|split; [|split]]; intros E.
  - rewrite E. repeat split.
  - rewrite E. repeat split.
  - rewrite E. repeat split.
  - rewrite E. repeat split.
Qed.

(** *** The trajectory starts at the origin *)

(** What one callback does to the trajectory: nothing, a reset to
    [[{0,0}]], or one point appended at the end. *)
Lemma dispatch_path (s : App) (e : Event) :
  path (dispatch s e) = path s \/
  path (dispatch s e) = [Point.mk 0 0] \/
  exists p, path (dispatch s e) = path s ++ [p].
Proof.
  destruct e as [now data|data| | | |]; cbn;
    try (now left); try (right; now left).
  unfold accelListener.
  cbn [isTracking setAccel].
  destruct (isTracking s); [|now left].
  destruct (lastTimeRef s) as [last|] eqn:Hlast.
  - destruct ((now - last) / 1000 <=? 0) eqn:Hdt.
    + unfold updateDeadReckoning. cbn [lastTimeRef setAccel].
      rewrite Hlast, Hdt. now left.
    + rewrite (updateDeadReckoning_integrates now last) by assumption.
      unfold integrated. cbv zeta. cbn [path setAccel].
      match goal with |- context [if ?c then _ else _] => destruct c end.
      * right; right. eexists. reflexivity.
      * now left.
  - unfold updateDeadReckoning. cbn [lastTimeRef setAccel].
    rewrite Hlast. now left.
Qed.

(** C10. In every reachable state the trajectory is non-empty and its
    first point is [{0,0}]: it starts as [[{0,0}]], and each callback
    leaves it alone, resets it to [[{0,0}]] (Start, Reset, Calibrate) or
    appends one point at its end (an integration step). *)
Theorem path_starts_at_origin (s : App) :
  reachable s ->
  (exists rest, path s = Point.mk 0 0 :: rest) /\
  path initial = [Point.mk 0 0] /\
  (forall e,
     path (dispatch s e) = path s \/
     path (dispatch s e) = [Point.mk 0 0] \/
     exists p, path (dispatch s e) = path s ++ [p]).
Proof.
  intros Hr. split; [|split; [reflexivity|apply dispatch_path]].
  induction Hr as [|s e Hr [rest IH]].
  - now exists [].
  - destruct (dispatch_path s e) as [E|[E|[p E]]]; rewrite E.
    + now exists rest.
    + now exists [].
    + rewrite IH. now exists (rest ++ [p]).
Qed.

(** *** Non-finite readings *)

(** In binary64 arithmetic a [NaN] or an infinity absorbs [+], [-] and
    [*]: the result is again [NaN] or an infinity. *)
Lemma nonfinite_add_l (a b : float) :
  isFinite a = false -> isFinite (a + b) = false.
Proof.
  unfold isFinite. rewrite add_spec. unfold SF64add, SFadd.
  destruct (Prim2SF a) as [sa|sa| |sa ma ea]; try discriminate; intros _;
    destruct (Prim2SF b) as [sb|sb| |sb mb eb]; try reflexivity;
    destruct sa, sb; reflexivity.
Qed.

Lemma nonfinite_add_r (a b : float) :
  isFinite b = false -> isFinite (a + b) = false.
Proof.
  unfold isFinite. rewrite add_spec. unfold SF64add, SFadd.
  destruct (Prim2SF b) as [sb|sb| |sb mb eb]; try discriminate; intros _;
    destruct (Prim2SF a) as [sa|sa| |sa ma ea]; try reflexivity;
    destruct sa, sb; reflexivity.
Qed.

Lemma nonfinite_sub_l (a b : float) :
  isFinite a = false -> isFinite (a - b) = false.
Proof.
  unfold isFinite. rewrite sub_spec. unfold SF64sub, SFsub.
  destruct (Prim2SF a) as [sa|sa| |sa ma ea]; try discriminate; intros _;
    destruct (Prim2SF b) as [sb|sb| |sb mb eb]; try reflexivity;
    destruct sa, sb; reflexivity.
Qed.

Lemma nonfinite_sub_r (a b : float) :
  isFinite b = false -> isFinite (a - b) = false.
Proof.
  unfold isFinite. rewrite sub_spec. unfold SF64sub, SFsub.
  destruct (Prim2SF b) as [sb|sb| |sb mb eb]; try discriminate; intros _;
    destruct (Prim2SF a) as [sa|sa| |sa ma ea]; try reflexivity;
    destruct sa, sb; reflexivity.
Qed.

Lemma nonfinite_mul_l (a b : float) :
  isFinite a = false -> isFinite (a * b) = false.
Proof.
  unfold isFinite. rewrite mul_spec. unfold SF64mul, SFmul.
  destruct (Prim2SF a) as [sa|sa| |sa ma ea]; try discriminate; intros _;
    destruct (Prim2SF b) as [sb|sb| |sb mb eb]; reflexivity.
Qed.

(** A non-finite number that is not [NaN] is truthy. *)
Lemma infinite_truthy (v : float) :
  isFinite v = false -> is_nan v = false -> truthy v = true.
Proof.
  unfold isFinite, truthy. intros Hv ->. rewrite eqb_spec.
  change (Prim2SF 0) with (S754_zero false).
  destruct (Prim2SF v) as [sv|sv| |sv mv ev]; try discriminate;
    try destruct sv; reflexivity.
Qed.

Lemma nonfinite_wrapHeading (h : float) :
  isFinite h = false -> isFinite (wrapHeading h) = false.
Proof.
  intros Hh. unfold wrapHeading. cbv zeta.
  destruct (Math_PI <? h);
    match goal with |- context [if ?c then _ else _] => destruct c end;
    auto using nonfinite_add_l, nonfinite_sub_l.
Qed.

Create HintDb nonfinite.

#[local] Hint Resolve nonfinite_add_l nonfinite_add_r nonfinite_sub_l
  nonfinite_sub_r nonfinite_mul_l : nonfinite.

(** C8, as the code has it. An integration step neither detects nor
    corrects non-finite readings, with one exception.  A non-finite
    accelerometer [x] or [y] makes both velocity components and both
    position components non-finite.  An infinite gyroscope [z] makes the
    heading non-finite.  A [NaN] gyroscope [z], however, is falsy, so
    [gyroRef.current.z || 0] replaces it by 0: the step is the one a yaw
    rate of 0 gives.  The accelerometer [z] and the gyroscope [x] and [y]
    are not read by the step at all. *)
Theorem nonfinite_readings (now last : float) (data : Vec3.t) (s : App) :
  lastTimeRef s = Some last ->
  ((now - last) / 1000 <=? 0) = false ->
  let s' := updateDeadReckoning now data s in
  let g := gyroRef s in
  (isFinite (Vec3.x data) = false \/ isFinite (Vec3.y data) = false ->
     isFinite (Velocity.vx (velocityRef s')) = false /\
     isFinite (Velocity.vy (velocityRef s')) = false /\
     isFinite (Point.x (positionRef s')) = false /\
     isFinite (Point.y (positionRef s')) = false) /\
  (isFinite (Vec3.z g) = false -> is_nan (Vec3.z g) = false ->
     isFinite (headingRef s') = false) /\
  (is_nan (Vec3.z g) = true ->
     let g0 := Vec3.mk (Vec3.x g) (Vec3.y g) 0 in
     s' = set_gyroRef g (updateDeadReckoning now data (set_gyroRef g0 s))) /\
  (forall z',
     updateDeadReckoning now (Vec3.mk (Vec3.x data) (Vec3.y data) z') s
     = s') /\
  (forall x' y',
     let g' := Vec3.mk x' y' (Vec3.z g) in
     updateDeadReckoning now data (set_gyroRef g' s) = set_gyroRef g' s').
Proof.
  intros Hlast Hdt.
  rewrite (updateDeadReckoning_integrates now last data s Hlast Hdt).
  cbv zeta. split; [|split; [|split; [|split]]].
  - unfold integrated. cbv zeta.
    cbn [velocityRef positionRef Velocity.vx Velocity.vy Point.x Point.y].
    intros [Hx|Hy]; repeat split; auto 12 with nonfinite.
  - intros Hinf Hnan. unfold integrated. cbv zeta. cbn [headingRef].
    apply nonfinite_wrapHeading. unfold js_or.
    rewrite (infinite_truthy _ Hinf Hnan). auto with nonfinite.
  - intros Hnan.
    rewrite (updateDeadReckoning_integrates now last data) by assumption.
    unfold integrated, js_or, truthy.
    cbn [set_gyroRef accel gyro isTracking path totalDistance
         totalDistanceRef bias biasRef velocityRef positionRef lastTimeRef
         gyroRef headingRef Vec3.z].
    rewrite Hnan, orb_true_r. reflexivity.
  - intros z'.
    rewrite (updateDeadReckoning_integrates now last _ s Hlast Hdt).
    reflexivity.
  - intros x' y'.
    rewrite (updateDeadReckoning_integrates now last data) by assumption.
    reflexivity.
Qed.

(** *** Constant acceleration along x *)

Lemma straight_step (s : App) (t t' z : float) :
  Math_cos 0 = 1 -> Math_sin 0 = 0 ->
  straight s t -> (t' - t) / 1000 = 0.05 ->
  let s' := accelListener t' (Vec3.mk 1 0 z) s in
  straight s' t' /\
  (velocityRef s', positionRef s') =
    recurrence damping 1 0 0.05 (velocityRef s, positionRef s).
Proof.
  intros Hcos Hsin (Htr & Hh & Hg & Hbx & Hby & Hlast) Hdt.
  unfold accelListener. cbn [isTracking setAccel]. rewrite Htr.
  rewrite (updateDeadReckoning_integrates t' t);
    [|exact Hlast|now cbn [lastTimeRef setAccel]; rewrite Hdt].
  unfold integrated, straight. cbv zeta.
  cbn [accel gyro isTracking path totalDistance totalDistanceRef bias
       biasRef velocityRef positionRef lastTimeRef gyroRef headingRef
       setAccel Vec3.x Vec3.y Vec3.z].
  rewrite Hh, Hg, Hbx, Hby, Hdt.
  change (wrapHeading (0 + js_or 0 0 * 0.05)) with 0.
  rewrite Hcos, Hsin.
  repeat split; assumption.
Qed.

Lemma straight_positions (z : float) (ts : list float) :
  Math_cos 0 = 1 -> Math_sin 0 = 0 ->
  forall (s : App) (t : float),
  straight s t -> spaced 0.05 t ts ->
  positions s (feed (Vec3.mk 1 0 z) ts) =
    trace damping 1 0 0.05 (length ts) (velocityRef s, positionRef s).
Proof.
  intros Hcos Hsin. induction ts as [|t' ts IH]; intros s t Hs Hsp.
  - reflexivity.
  - destruct Hsp as [Hdt Hsp].
    destruct (straight_step s t t' z Hcos Hsin Hs Hdt) as [Hs' E].
    cbn [feed map positions length trace dispatch].
    rewrite <- E. cbn [snd]. f_equal.
    exact (IH _ t' Hs' Hsp).
Qed.

(** C6. From a freshly started session with no bias on x and y and a
    cached yaw rate of 0, 21 accelerometer readings (1, 0, z) spaced by
    0.05 s give one bootstrap and 20 integration steps.  The position
    after each step has a strictly larger x than the one before, has y = 0,
    and its magnitude is strictly below the x of the undamped recurrence
    (factor 1 in place of 0.98) after as many steps; after the 20 steps it
    is also below a t^2 / 2 = 0.5. *)
Theorem constant_acceleration_run (s0 : App) (t0 z : float)
  (ts : list float) :
  Math_cos 0 = 1 -> Math_sin 0 = 0 ->
  Vec3.x (biasRef s0) = 0 -> Vec3.y (biasRef s0) = 0 ->
  Vec3.z (gyroRef s0) = 0 ->
  length ts = 20%nat -> spaced 0.05 t0 ts ->
  let ps := positions (handleStart s0) (feed (Vec3.mk 1 0 z) (t0 :: ts)) in
  let us := trace 1 1 0 0.05 20 (Velocity.mk 0 0, Point.mk 0 0) in
  length ps = 21%nat /\
  nth 0 ps origin = Point.mk 0 0 /\
  (forall k, (k < 20)%nat ->
     let p := nth k ps origin in
     let p' := nth (S k) ps origin in
     (Point.x p <? Point.x p') = true /\
     Point.y p' = 0 /\
     (abs (Point.x p') <? Point.x (nth k us origin)) = true) /\
  (Point.x (nth 20 ps origin) <? 1 * (20 * 0.05) * (20 * 0.05) / 2) = true.
Proof.
  intros Hcos Hsin Hbx Hby Hg Hlen Hsp ps us.
  assert (Hboot : straight (dispatch (handleStart s0)
                              (AccelSample t0 (Vec3.mk 1 0 z))) t0).
  { unfold straight. cbn. now rewrite Hbx, Hby, Hg. }
  assert (E : ps = Point.mk 0 0
                   :: trace damping 1 0 0.05 20
                        (Velocity.mk 0 0, Point.mk 0 0)).
  { unfold ps. cbn [feed map positions].
    change (map (fun t => AccelSample t (Vec3.mk 1 0 z)) ts)
      with (feed (Vec3.mk 1 0 z) ts).
    rewrite (straight_positions z ts Hcos Hsin _ t0 Hboot Hsp), Hlen.
    reflexivity. }
  clearbody ps. subst ps us.
  split; [reflexivity|]. split; [reflexivity|]. split.
  - intros k Hk.
    do 20 (destruct k as [|k]; [vm_compute; repeat split; reflexivity|]).
    lia.
  - vm_compute. reflexivity.
Qed.

(** *** The heading range *)

Lemma in_range_zero : in_range 0.
Proof.
  split; reflexivity.
Qed.

(** One callback keeps the heading in range when its wrap precondition
    holds. *)
Lemma dispatch_heading (s : App) (e : Event) :
  in_range (headingRef s) -> one_wrap s e ->
  in_range (headingRef (dispatch s e)).
Proof.
  intros Hh Hw.
  destruct e as [now data|data| | | |]; cbn;
    try exact Hh; try exact in_range_zero.
  unfold accelListener. cbn [isTracking setAccel].
  cbn [one_wrap] in Hw.
  destruct (isTracking s) eqn:Htr; [|exact Hh].
  destruct (lastTimeRef s) as [last|] eqn:Hlast.
  - cbv zeta in Hw.
    destruct ((now - last) / 1000 <=? 0) eqn:Hdt.
    + unfold updateDeadReckoning. cbn [lastTimeRef setAccel].
      rewrite Hlast, Hdt. exact Hh.
    + rewrite (updateDeadReckoning_integrates now last) by assumption.
      unfold integrated. cbv zeta. cbn [headingRef gyroRef setAccel].
      destruct (heading_sum_range _ _ Hh (Hw eq_refl eq_refl)) as [Hlo Hhi].
      apply wrapHeading_range; assumption.
  - unfold updateDeadReckoning. cbn [lastTimeRef setAccel].
    rewrite Hlast. exact Hh.
Qed.

(** C2, as the code has it. Along any run that starts with the heading in
    [[-pi, pi]] and in which every integration step changes the heading by
    at most one turn ([|yawRate * dt| <= 2 pi]), the heading lies in the
    closed range [[-pi, pi]] after every callback, so after every
    integration step.  The lower end belongs to the range: a sum of exactly
    [-pi] is kept as it is. *)
Theorem heading_stays_in_range (s : App) (es : list Event) :
  in_range (headingRef s) -> gentle s es ->
  Forall in_range (headings s es).
Proof.
  revert s. induction es as [|e es IH]; intros s Hh Hg; cbn [headings].
  - constructor.
  - destruct Hg as [Hw Hg].
    pose proof (dispatch_heading s e Hh Hw) as Hh'.
    constructor; [exact Hh'|exact (IH _ Hh' Hg)].
Qed.

(** *** How the buttons compose *)

(** Reset twice is Reset once; Stop right after Start is Reset; Start
    forgets a preceding Reset or Stop; Calibrate twice is Calibrate once;
    Stop twice is Stop once. *)
Theorem buttons_compose (s : App) :
  handleReset (handleReset s) = handleReset s /\
  handleStop (handleStart s) = handleReset s /\
  handleStart (handleReset s) = handleStart s /\
  handleStart (handleStop s) = handleStart s /\
  handleReset (handleStop s) = handleReset s /\
  handleCalibrate (handleCalibrate s) = handleCalibrate s /\
  handleStop (handleStop s) = handleStop s.
Proof.
  repeat split.
Qed.

(** *** What the displayed state mirrors *)

(** What one callback does to an accelerometer-driven state, by cases. *)
Lemma accelListener_cases (now : float) (data : Vec3.t) (s : App) :
  accelListener now data s = setAccel data s \/
  accelListener now data s = set_lastTimeRef (Some now) (setAccel data s) \/
  exists last,
    isTracking s = true /\ lastTimeRef s = Some last /\
    ((now - last) / 1000 <=? 0) = false /\
    accelListener now data s
    = integrated now ((now - last) / 1000) data (setAccel data s).
Proof.
  unfold accelListener. cbn [isTracking setAccel].
  destruct (isTracking s) eqn:Htr; [|now left].
  destruct (lastTimeRef s) as [last|] eqn:Hlast.
  - destruct ((now - last) / 1000 <=? 0) eqn:Hdt.
    + left. unfold updateDeadReckoning. cbn [lastTimeRef setAccel].
      now rewrite Hlast, Hdt.
    + right; right. exists last. repeat split; try assumption.
      now apply updateDeadReckoning_integrates.
  - right; left. unfold updateDeadReckoning. cbn [lastTimeRef setAccel].
    now rewrite Hlast.
Qed.

(** In every reachable state the displayed values are those the
    integrator holds in its refs (bias, total distance, latest gyroscope
    reading), and an idle component has no last timestamp, so a timestep
    never spans an idle period. *)
Theorem display_mirrors_refs (s : App) :
  reachable s ->
  bias s = biasRef s /\
  totalDistance s = totalDistanceRef s /\
  gyro s = gyroRef s /\
  (isTracking s = false -> lastTimeRef s = None).
Proof.
  intros Hr. induction Hr as [|s e Hr (Hb & Hd & Hg & Hi)].
  - repeat split.
  - destruct e as [now data|data| | | |]; cbn [dispatch];
      try (repeat split; assumption || discriminate).
    destruct (accelListener_cases now data s) as [E|[E|(last & Htr & _ & _ & E)]];
      rewrite E.
    + repeat split; assumption.
    + repeat split; try assumption. cbn. intros H. specialize (Hi H).
      unfold accelListener in E. cbn [isTracking setAccel] in E.
      rewrite H in E. apply (f_equal lastTimeRef) in E. cbn in E.
      rewrite Hi in E. discriminate.
    + unfold integrated. cbv zeta.
      cbn [bias biasRef totalDistance totalDistanceRef gyro gyroRef
           isTracking lastTimeRef setAccel].
      repeat split; try assumption.
      * destruct (threshold <? _); [reflexivity|assumption].
      * intros H. rewrite H in Htr. discriminate.
Qed.

(** Only Calibrate changes the bias: every other callback, integration
    steps included, leaves both the bias ref and the displayed bias as
    they were. *)
Theorem bias_changes_only_on_calibrate (s : App) (e : Event) :
  e <> PressCalibrate ->
  biasRef (dispatch s e) = biasRef s /\ bias (dispatch s e) = bias s.
Proof.
  intros He.
  destruct e as [now data|data| | | |]; cbn [dispatch];
    try (split; reflexivity); [|contradiction].
  destruct (accelListener_cases now data s) as [E|[E|(last & _ & _ & _ & E)]];
    rewrite E; split; reflexivity.
Qed.

(** *** The end of the trajectory *)

(** In every reachable state the last recorded point is the current
    position, or the position is not more than the threshold away from
    it: the test [dist > 0.005] fails for the distance between them. *)
Theorem path_end_near_position (s : App) :
  reachable s ->
  let q := List.last (path s) origin in
  let p := positionRef s in
  q = p \/
  (threshold <? Math_hypot (Point.x p - Point.x q) (Point.y p - Point.y q))
  = false.
Proof.
  intros Hr. cbv zeta. induction Hr as [|s e Hr IH].
  - now left.
  - destruct e as [now data|data| | | |]; cbn [dispatch];
      try exact IH; try (now left).
    destruct (accelListener_cases now data s) as [E|[E|(last & _ & _ & _ & E)]];
      rewrite E; try exact IH.
    unfold integrated. cbv zeta.
    cbn [path positionRef setAccel Point.x Point.y].
    match goal with |- context [threshold <? ?d] =>
      destruct (threshold <? d) eqn:Hd
    end.
    + left. now rewrite last_last.
    + right. exact Hd.
Qed.

(** *** A stationary device *)

(** A finite number minus itself is [+0]. *)
Lemma sub_self_finite (v : float) : isFinite v = true -> v - v = 0.
Proof.
  unfold isFinite. intros H. apply Prim2SF_inj. rewrite sub_spec.
  change (Prim2SF 0) with (S754_zero false). unfold SF64sub, SFsub.
  destruct (Prim2SF v) as [sv|sv| |sv m e]; try discriminate.
  - now destruct sv.
  - now rewrite Z.sub_diag.
Qed.

(** [+0] times a finite timestep that passes the guard is [+0]. *)
Lemma zero_mul_timestep (dt : float) :
  isFinite dt = true -> (dt <=? 0) = false -> 0 * dt = 0.
Proof.
  unfold isFinite. intros H. rewrite leb_spec. intros G.
  apply Prim2SF_inj. rewrite mul_spec.
  change (Prim2SF 0) with (S754_zero false) in *. unfold SF64mul, SFmul.
  destruct (Prim2SF dt) as [sd|sd| |sd m e]; try discriminate.
  now destruct sd.
Qed.

Lemma at_rest_step (bx b_y z : float) (s : App) (t t' : float) :
  Math_cos 0 = 1 -> Math_sin 0 = 0 -> Math_hypot 0 0 = 0 ->
  isFinite bx = true -> isFinite b_y = true ->
  isFinite ((t' - t) / 1000) = true ->
  at_rest bx b_y s t ->
  let s' := accelListener t' (Vec3.mk bx b_y z) s in
  at_rest bx b_y s' t \/ at_rest bx b_y s' t'.
Proof.
  intros Hcos Hsin Hhyp Fx Fy Fdt R.
  pose proof R as (Htr & Hh & Hg & Hbx & Hby & Hv & Hp & Hpa & Hdr & Hd & Hl).
  cbv zeta.
  destruct (accelListener_cases t' (Vec3.mk bx b_y z) s)
    as [E|[E|(last & _ & Hl' & Hdt & E)]]; rewrite E.
  - left. exact R.
  - right. unfold at_rest. cbn. repeat split; assumption.
  - right. rewrite Hl in Hl'. injection Hl' as <-.
    unfold integrated, at_rest. cbv zeta.
    cbn [accel gyro isTracking path totalDistance totalDistanceRef bias
         biasRef velocityRef positionRef lastTimeRef gyroRef headingRef
         setAccel Vec3.x Vec3.y Vec3.z].
    rewrite Hh, Hg, Hbx, Hby, Hv, Hp, Hpa, Hdr, Hd.
    cbn [Velocity.vx Velocity.vy Point.x Point.y List.last].
    change (js_or 0 0) with 0.
    rewrite (sub_self_finite bx Fx), (sub_self_finite b_y Fy).
    rewrite (zero_mul_timestep _ Fdt Hdt).
    change (wrapHeading (0 + 0)) with 0.
    rewrite Hcos, Hsin.
    change (0 * 1 - 0 * 0) with 0. change (0 * 0 + 0 * 1) with 0.
    rewrite (zero_mul_timestep _ Fdt Hdt).
    change ((0 + 0) * damping) with 0.
    rewrite (zero_mul_timestep _ Fdt Hdt).
    change (0 + 0) with 0. change (Point.x origin) with 0.
    change (Point.y origin) with 0. change (0 - 0) with 0.
    rewrite Hhyp. change (threshold <? 0) with false.
    repeat split; assumption.
Qed.

(** A device at rest stays at the origin.  After Start, with a cached
    yaw rate of 0 and every accelerometer reading equal to the calibrated
    bias on x and y, any number of samples leaves the trajectory
    [[{0,0}]], the distance 0, and position and velocity 0, provided the
    timestamps differ by finite amounts and the engine has
    [Math.cos(0) = 1], [Math.sin(0) = 0], [Math.hypot(0, 0) = 0]. *)
Theorem stationary_stays_at_origin (s0 : App) (z t0 : float)
  (ts : list float) :
  Math_cos 0 = 1 -> Math_sin 0 = 0 -> Math_hypot 0 0 = 0 ->
  isFinite (Vec3.x (biasRef s0)) = true ->
  isFinite (Vec3.y (biasRef s0)) = true ->
  Vec3.z (gyroRef s0) = 0 ->
  (forall t t', In t (t0 :: ts) -> In t' (t0 :: ts) ->
                isFinite ((t' - t) / 1000) = true) ->
  let b := Vec3.mk (Vec3.x (biasRef s0)) (Vec3.y (biasRef s0)) z in
  let s := run (handleStart s0) (feed b (t0 :: ts)) in
  path s = [Point.mk 0 0] /\
  totalDistance s = 0 /\
  positionRef s = Point.mk 0 0 /\
  velocityRef s = Velocity.mk 0 0.
Proof.
  intros Hcos Hsin Hhyp Fx Fy Hg Hfin b s.
  set (bx := Vec3.x (biasRef s0)) in *. set (b_y := Vec3.y (biasRef s0)) in *.
  assert (Hboot : at_rest bx b_y
                    (dispatch (handleStart s0) (AccelSample t0 b)) t0).
  { unfold at_rest. cbn. repeat split. exact Hg. }
  assert (Hrun : forall us s1 t1,
            at_rest bx b_y s1 t1 -> In t1 (t0 :: ts) -> incl us (t0 :: ts) ->
            exists t2, at_rest bx b_y (run s1 (feed b us)) t2).
  { induction us as [|u us IH]; intros s1 t1 R1 I1 Inc.
    - now exists t1.
    - assert (Iu : In u (t0 :: ts)) by (apply Inc; now left).
      assert (Inc' : incl us (t0 :: ts))
        by (intros v Hv; apply Inc; now right).
      cbn [feed map run fold_left].
      destruct (at_rest_step bx b_y z s1 t1 u Hcos Hsin Hhyp Fx Fy
                  (Hfin t1 u I1 Iu) R1) as [R|R].
      + exact (IH _ t1 R I1 Inc').
      + exact (IH _ u R Iu Inc'). }
  destruct (Hrun ts _ t0 Hboot (or_introl eq_refl))
    as (t2 & R); [intros v Hv; now right|].
  destruct R as (_ & _ & _ & _ & _ & Hv & Hp & Hpa & _ & Hd & _).
  repeat split; assumption.
Qed.

End Component.

(** ** Instances

    The theorems above at concrete inputs, with [Engine]'s functions for
    [Math.cos], [Math.sin] and [Math.hypot]; timestamps are milliseconds
    as [Date.now()] returns them. *)

(** An idle component shows a sample and does nothing else. *)
Lemma idle_sample_display_only_witness :
  isTracking initial = false /\
  accelListener Engine.cos Engine.sin Engine.hypot
    1700000000000 (Vec3.mk 0.1 (-0.2) 9.8) initial
  = setAccel (Vec3.mk 0.1 (-0.2) 9.8) initial.
Proof.
  split; [reflexivity|].
  exact (proj1 (idle_sample_display_only Engine.cos Engine.sin Engine.hypot
                  1700000000000 (Vec3.mk 0.1 (-0.2) 9.8) initial eq_refl)).
Defined.

(** Stop after Start and two samples. *)
Lemma stop_keeps_session_witness :
  let s := run Engine.cos Engine.sin Engine.hypot initial
             [PressStart;
              AccelSample 1700000000000 (Vec3.mk 1 0 9.8);
              AccelSample 1700000000200 (Vec3.mk 1 0 9.8)] in
  isTracking s = true /\
  isTracking (handleStop s) = false /\
  lastTimeRef (handleStop s) = None /\
  path (handleStop s) = path s.
Proof.
  intros s.
  assert (H : isTracking s = true) by (vm_compute; reflexivity).
  destruct (stop_keeps_session s H) as (H1 & H2 & H3 & _).
  exact (conj H (conj H1 (conj H2 H3))).
Defined.

(** Calibrate while tracking, with latest reading (0.2, -0.1, 9.8). *)
Lemma calibrate_sets_bias_and_resets_witness :
  let s := run Engine.cos Engine.sin Engine.hypot initial
             [PressStart;
              AccelSample 1700000000000 (Vec3.mk 1 0 9.8);
              AccelSample 1700000000200 (Vec3.mk 0.2 (-0.1) 9.8)] in
  accel s = Vec3.mk 0.2 (-0.1) 9.8 /\
  biasRef (handleCalibrate s) = Vec3.mk 0.2 (-0.1) 9.8 /\
  path (handleCalibrate s) = [Point.mk 0 0] /\
  isTracking (handleCalibrate s) = false.
Proof.
  intros s.
  assert (H : accel s = Vec3.mk 0.2 (-0.1) 9.8) by (vm_compute; reflexivity).
  destruct (calibrate_sets_bias_and_resets s H) as (H1 & _ & H3 & H4 & _).
  exact (conj H (conj H1 (conj H3 H4))).
Defined.

(** A sample stamped 50 ms before the last one is discarded. *)
Lemma nonpositive_dt_discards_witness :
  let s := run Engine.cos Engine.sin Engine.hypot initial
             [PressStart; AccelSample 1700000000500 (Vec3.mk 1 0 9.8)] in
  isTracking s = true /\
  lastTimeRef s = Some 1700000000500 /\
  accelListener Engine.cos Engine.sin Engine.hypot
    1700000000450 (Vec3.mk 1 0 9.8) s
  = setAccel (Vec3.mk 1 0 9.8) s.
Proof.
  intros s.
  assert (H1 : isTracking s = true) by (vm_compute; reflexivity).
  assert (H2 : lastTimeRef s = Some 1700000000500)
    by (vm_compute; reflexivity).
  refine (conj H1 (conj H2 _)).
  exact (proj1 (proj1 (nonpositive_dt_discards Engine.cos Engine.sin
                         Engine.hypot 1700000000450 1700000000500
                         (Vec3.mk 1 0 9.8) s H1 H2) eq_refl)).
Defined.

(** C1 as stated fails: with the clock 50 ms behind the last timestamp,
    [dt <= 0] and the last timestamp stays 1700000000500; it does not
    become the sample's 1700000000450. *)
Lemma timestamp_kept_on_discard :
  let s := run Engine.cos Engine.sin Engine.hypot initial
             [PressStart; AccelSample 1700000000500 (Vec3.mk 1 0 9.8)] in
  let s' := accelListener Engine.cos Engine.sin Engine.hypot
              1700000000450 (Vec3.mk 1 0 9.8) s in
  isTracking s = true /\
  lastTimeRef s = Some 1700000000500 /\
  ((1700000000450 - 1700000000500) / 1000 <=? 0) = true /\
  lastTimeRef s' = Some 1700000000500 /\
  lastTimeRef s' <> Some 1700000000450.
Proof.
  cbv zeta. repeat split; try (vm_compute; reflexivity).
  intros H.
  apply (f_equal (fun o => match o with
                           | Some v => v <? 1700000000475
                           | None => false
                           end)) in H.
  vm_compute in H. discriminate.
Defined.

(** The first integration step of a run with acceleration (1, 0). *)
Lemma step_velocity_position_witness :
  let s := run Engine.cos Engine.sin Engine.hypot initial
             [PressStart; AccelSample 1700000000000 (Vec3.mk 1 0 9.8)] in
  let s' := updateDeadReckoning Engine.cos Engine.sin Engine.hypot
              1700000000050 (Vec3.mk 1 0 9.8) s in
  lastTimeRef s = Some 1700000000000 /\
  (0 <? (1700000000050 - 1700000000000) / 1000) = true /\
  velocityRef s' = Velocity.mk ((0 + 1 * 0.05) * 0.98) 0 /\
  positionRef s' = Point.mk (0 + (0 + 1 * 0.05) * 0.98 * 0.05) 0.
Proof.
  intros s s'.
  assert (H1 : lastTimeRef s = Some 1700000000000)
    by (vm_compute; reflexivity).
  refine (conj H1 (conj eq_refl _)).
  pose proof (step_velocity_position Engine.cos Engine.sin Engine.hypot
                1700000000050 1700000000000 (Vec3.mk 1 0 9.8) s H1 eq_refl)
    as H.
  cbv zeta in H. fold s' in H. destruct H as [Hv Hp].
  split; [rewrite Hv|rewrite Hp]; vm_compute; reflexivity.
Defined.

(** The first step moves 2.45 mm: below the threshold, not recorded. *)
Lemma sampler_threshold_witness :
  let s := run Engine.cos Engine.sin Engine.hypot initial
             [PressStart; AccelSample 1700000000000 (Vec3.mk 1 0 9.8)] in
  let s' := updateDeadReckoning Engine.cos Engine.sin Engine.hypot
              1700000000050 (Vec3.mk 1 0 9.8) s in
  lastTimeRef s = Some 1700000000000 /\
  ((1700000000050 - 1700000000000) / 1000 <=? 0) = false /\
  path s' = path s /\
  totalDistanceRef s' = totalDistanceRef s /\
  totalDistance s' = totalDistance s.
Proof.
  intros s s'.
  assert (H1 : lastTimeRef s = Some 1700000000000)
    by (vm_compute; reflexivity).
  refine (conj H1 (conj eq_refl _)).
  refine (proj1 (proj2 (sampler_threshold Engine.cos Engine.sin Engine.hypot
                          1700000000050 1700000000000 (Vec3.mk 1 0 9.8) s
                          H1 eq_refl)) _).
  vm_compute. reflexivity.
Defined.

(** C4 as stated fails: the first position a session hands to the sampler
    gets no exemption.  After Start and the bootstrap sample the
    trajectory is [[{0,0}]]; the first integration step moves to
    x = 0.00245, a distance [d] with [0 < d <= 0.005]; nothing is appended
    and no distance is added.  The same holds when the trajectory is
    empty and the distance is measured from the origin. *)
Lemma first_position_not_exempt :
  let s := run Engine.cos Engine.sin Engine.hypot initial
             [PressStart; AccelSample 1700000000000 (Vec3.mk 1 0 9.8)] in
  let s' := accelListener Engine.cos Engine.sin Engine.hypot
              1700000000050 (Vec3.mk 1 0 9.8) s in
  let d := Engine.hypot (Point.x (positionRef s') - 0)
                        (Point.y (positionRef s') - 0) in
  let e := accelListener Engine.cos Engine.sin Engine.hypot
             1700000000050 (Vec3.mk 1 0 9.8) (setPath [] s) in
  path s = [Point.mk 0 0] /\
  (0 <? d) = true /\ (d <=? 0.005) = true /\
  path s' = [Point.mk 0 0] /\
  totalDistance s' = 0 /\
  path e = [] /\
  totalDistance e = 0.
Proof.
  cbv zeta. repeat split; vm_compute; reflexivity.
Defined.

(** A state three callbacks away from mounting. *)
Lemma path_starts_at_origin_witness :
  let s := dispatch Engine.cos Engine.sin Engine.hypot
             (dispatch Engine.cos Engine.sin Engine.hypot
                (dispatch Engine.cos Engine.sin Engine.hypot initial
                   PressStart)
                (AccelSample 1700000000000 (Vec3.mk 1 0 9.8)))
             (AccelSample 1700000000200 (Vec3.mk 1 0 9.8)) in
  reachable Engine.cos Engine.sin Engine.hypot s /\
  exists rest, path s = Point.mk 0 0 :: rest.
Proof.
  intros s.
  assert (H : reachable Engine.cos Engine.sin Engine.hypot s)
    by (repeat apply reachable_dispatch; apply reachable_initial).
  exact (conj H (proj1 (path_starts_at_origin Engine.cos Engine.sin
                          Engine.hypot s H))).
Defined.

(** Scenario B with [Date.now()] advancing by 50 ms per sample. *)
Lemma constant_acceleration_run_witness :
  let ts := [1700000000050; 1700000000100; 1700000000150; 1700000000200;
             1700000000250; 1700000000300; 1700000000350; 1700000000400;
             1700000000450; 1700000000500; 1700000000550; 1700000000600;
             1700000000650; 1700000000700; 1700000000750; 1700000000800;
             1700000000850; 1700000000900; 1700000000950; 1700000001000] in
  let ps := positions Engine.cos Engine.sin Engine.hypot (handleStart initial)
              (feed (Vec3.mk 1 0 9.8) (1700000000000 :: ts)) in
  Engine.cos 0 = 1 /\ Engine.sin 0 = 0 /\
  Vec3.x (biasRef initial) = 0 /\ Vec3.y (biasRef initial) = 0 /\
  Vec3.z (gyroRef initial) = 0 /\
  length ts = 20%nat /\ spaced 0.05 1700000000000 ts /\
  length ps = 21%nat /\
  (Point.x (nth 20 ps origin) <? 1 * (20 * 0.05) * (20 * 0.05) / 2) = true.
Proof.
  intros ts ps.
  assert (Hsp : spaced 0.05 1700000000000 ts)
    by (cbn [spaced ts]; repeat split; vm_compute; reflexivity).
  pose proof (constant_acceleration_run Engine.cos Engine.sin Engine.hypot
                initial 1700000000000 9.8 ts
                eq_refl eq_refl eq_refl eq_refl eq_refl eq_refl Hsp) as H.
  cbv zeta in H. destruct H as (H1 & _ & _ & H4).
  repeat split; try reflexivity; assumption.
Defined.

(** A [NaN] on the accelerometer's x axis reaches the position. *)
Lemma nonfinite_readings_witness :
  let s := run Engine.cos Engine.sin Engine.hypot initial
             [PressStart; AccelSample 1700000000000 (Vec3.mk 1 0 9.8)] in
  let s' := updateDeadReckoning Engine.cos Engine.sin Engine.hypot
              1700000000050 (Vec3.mk nan 0 9.8) s in
  lastTimeRef s = Some 1700000000000 /\
  ((1700000000050 - 1700000000000) / 1000 <=? 0) = false /\
  isFinite (Point.x (positionRef s')) = false /\
  isFinite (Point.y (positionRef s')) = false.
Proof.
  intros s s'.
  assert (H1 : lastTimeRef s = Some 1700000000000)
    by (vm_compute; reflexivity).
  refine (conj H1 (conj eq_refl _)).
  pose proof (proj1 (nonfinite_readings Engine.cos Engine.sin Engine.hypot
                       1700000000050 1700000000000 (Vec3.mk nan 0 9.8) s
                       H1 eq_refl) (or_introl eq_refl)) as H.
  exact (proj2 (proj2 H)).
Defined.

(** C8 as stated fails: a gyroscope sample whose [z] is [NaN] is cached,
    the next integration step runs, and heading, velocity and position all
    stay finite, because [NaN || 0] is 0. *)
Lemma nan_yaw_rate_is_dropped :
  let s' := run Engine.cos Engine.sin Engine.hypot initial
              [PressStart;
               GyroSample (Vec3.mk 0 0 nan);
               AccelSample 1700000000000 (Vec3.mk 1 0 9.8);
               AccelSample 1700000000050 (Vec3.mk 1 0 9.8)] in
  is_nan (Vec3.z (gyroRef s')) = true /\
  (0 <? Point.x (positionRef s')) = true /\
  isFinite (headingRef s') = true /\
  isFinite (Velocity.vx (velocityRef s')) = true /\
  isFinite (Velocity.vy (velocityRef s')) = true /\
  isFinite (Point.x (positionRef s')) = true /\
  isFinite (Point.y (positionRef s')) = true.
Proof.
  cbv zeta. repeat split; vm_compute; reflexivity.
Defined.

(** A quarter turn, then a half turn back over one second. *)
Lemma heading_stays_in_range_witness :
  let es := [PressStart;
             GyroSample (Vec3.mk 0 0 (-1.5707963267948966));
             AccelSample 1700000000000 (Vec3.mk 1 0 9.8);
             AccelSample 1700000001000 (Vec3.mk 1 0 9.8);
             GyroSample (Vec3.mk 0 0 3.5);
             AccelSample 1700000002000 (Vec3.mk 1 0 9.8);
             AccelSample 1700000003000 (Vec3.mk 1 0 9.8)] in
  in_range (headingRef initial) /\
  gentle Engine.cos Engine.sin Engine.hypot initial es /\
  Forall in_range (headings Engine.cos Engine.sin Engine.hypot initial es).
Proof.
  intros es.
  assert (H1 : in_range (headingRef initial)) by (split; reflexivity).
  assert (H2 : gentle Engine.cos Engine.sin Engine.hypot initial es).
  { vm_compute. repeat split; reflexivity. }
  exact (conj H1 (conj H2 (heading_stays_in_range Engine.cos Engine.sin
                             Engine.hypot initial es H1 H2))).
Defined.

(** C2 as stated fails: with a cached yaw rate of [-Math.PI] rad/s and a
    sample one second after the bootstrap, the heading changes by half a
    turn, to exactly [-Math.PI]; [-Math.PI < -Math.PI] is false, so it is
    not wrapped, and it lies outside the half-open range. *)
Lemma heading_reaches_minus_pi :
  let es := [PressStart;
             GyroSample (Vec3.mk 0 0 (- Math_PI));
             AccelSample 1700000000000 (Vec3.mk 1 0 9.8);
             AccelSample 1700000001000 (Vec3.mk 1 0 9.8)] in
  let s' := run Engine.cos Engine.sin Engine.hypot initial es in
  gentle Engine.cos Engine.sin Engine.hypot initial es /\
  headingRef s' = - Math_PI /\
  (- Math_PI <? headingRef s') = false.
Proof.
  cbv zeta. split; [|repeat split; vm_compute; reflexivity].
  vm_compute. repeat split; reflexivity.
Defined.

(** ** The AR scene *)

(** *** Lists and [NaN] *)

Lemma slice_last_length {A : Type} (n : nat) (l : list A) :
  (length (SLAMScene.slice_last n l) <= n)%nat.
Proof.
  unfold SLAMScene.slice_last. rewrite length_skipn. lia.
Qed.

Lemma slice_last_append {A : Type} (n : nat) (l : list A) (p : A) :
  (length l < n)%nat -> SLAMScene.slice_last n (l ++ [p]) = l ++ [p].
Proof.
  intros Hn. unfold SLAMScene.slice_last. rewrite length_app. cbn [length].
  replace (length l + 1 - n)%nat with 0%nat by lia. reflexivity.
Qed.

Lemma slice_last_full {A : Type} (n : nat) (l : list A) (p : A) :
  length l = S n ->
  SLAMScene.slice_last (S n) (l ++ [p]) = tl l ++ [p].
Proof.
  intros Hn. unfold SLAMScene.slice_last. rewrite length_app. cbn [length].
  replace (length l + 1 - S n)%nat with 1%nat by lia.
  destruct l as [|a l]; [discriminate|reflexivity].
Qed.

(** More than a centimetre is more than nothing. *)
Lemma above_threshold_positive (e : float) :
  (SLAMScene.MOVE_THRESHOLD <? e) = true -> (0 <? e) = true.
Proof.
  rewrite !ltb_spec.
  change (Prim2SF SLAMScene.MOVE_THRESHOLD)
    with (S754_finite false 5764607523034235 (-59)).
  change (Prim2SF 0) with (S754_zero false).
  destruct (Prim2SF e) as [s|s| |s m x]; try destruct s;
    try discriminate; reflexivity.
Qed.

Lemma nan_sub_l (b : float) : nan - b = nan.
Proof.
  apply Prim2SF_inj. rewrite sub_spec.
  change (Prim2SF nan) with S754_nan. reflexivity.
Qed.

Lemma nan_sub_r (a : float) : a - nan = nan.
Proof.
  apply Prim2SF_inj. rewrite sub_spec.
  change (Prim2SF nan) with S754_nan. unfold SF64sub, SFsub.
  now destruct (Prim2SF a) as [s|s| |s m x].
Qed.

Lemma nan_add_l (b : float) : nan + b = nan.
Proof.
  apply Prim2SF_inj. rewrite add_spec.
  change (Prim2SF nan) with S754_nan. reflexivity.
Qed.

Lemma nan_add_r (a : float) : a + nan = nan.
Proof.
  apply Prim2SF_inj. rewrite add_spec.
  change (Prim2SF nan) with S754_nan. unfold SF64add, SFadd.
  now destruct (Prim2SF a) as [s|s| |s m x].
Qed.

(** With a [NaN] coordinate in the pose or in the last trail point, the
    distance between them is [NaN]. *)
Lemma extra_of_nan (pos : Vec3.t) (prev : list Vec3.t) :
  prev <> [] ->
  SLAMScene.has_nan pos \/
  SLAMScene.has_nan (List.last prev (Vec3.mk 0 0 0)) ->
  SLAMScene.extra_of pos prev = nan.
Proof.
  intros Hne H. unfold SLAMScene.extra_of.
  destruct prev as [|a prev]; [contradiction|]. cbn [length Nat.ltb Nat.leb].
  cbv zeta. set (q := List.last (a :: prev) (Vec3.mk 0 0 0)) in *.
  assert (E : Vec3.x pos - Vec3.x q = nan \/
              Vec3.y pos - Vec3.y q = nan \/
              Vec3.z pos - Vec3.z q = nan).
  { destruct H as [[H|[H|H]]|[H|[H|H]]]; rewrite H;
      auto using nan_sub_l, nan_sub_r. }
  destruct E as [E|[E|E]]; rewrite E; change (nan * nan) with nan;
    rewrite ?nan_add_r, ?nan_add_l; reflexivity.
Qed.

(** *** The trail *)

(** The trail never holds more than 400 points, whatever the polls
    return. *)
Theorem trail_never_exceeds_400 (ps : list SLAMScene.Poll) :
  (SLAMScene.pointsCount (SLAMScene.run SLAMScene.initial ps) <= 400)%nat.
Proof.
  unfold SLAMScene.pointsCount.
  assert (H : forall s, (length (SLAMScene.trail s) <= 400)%nat ->
              (length (SLAMScene.trail (SLAMScene.run s ps)) <= 400)%nat).
  { induction ps as [|p ps IH]; intros s Hs; [exact Hs|].
    cbn [SLAMScene.run fold_left]. apply IH.
    destruct p as [| |position forward]; cbn [SLAMScene.tick]; try exact Hs.
    cbv zeta.
    match goal with |- context [if ?c then _ else _] => destruct c end;
      cbn [SLAMScene.trail]; [apply slice_last_length|exact Hs]. }
  apply H. cbn. lia.
Qed.

(** What a successful poll does to trail and distance.  The first pose is
    always recorded and adds no distance.  Afterwards a pose is recorded,
    and its distance [extra] from the last recorded point added, exactly
    when [extra > 0.01]; the trail then grows by the pose, or, when it
    already holds 400 points, drops its oldest point for it. *)
Theorem trail_sampler (position forward : option Vec3.t)
  (s : SLAMScene.Scene) :
  (length (SLAMScene.trail s) <= 400)%nat ->
  let pos := SLAMScene.nullish position (Vec3.mk 0 0 0) in
  let s' := SLAMScene.tick (SLAMScene.Camera position forward) s in
  let extra := SLAMScene.extra_of pos (SLAMScene.trail s) in
  (SLAMScene.trail s = [] ->
     SLAMScene.trail s' = [pos] /\
     SLAMScene.totalDistance s' = SLAMScene.totalDistance s) /\
  (SLAMScene.trail s <> [] -> (0.01 <? extra) = true ->
     SLAMScene.trail s' =
       (if (length (SLAMScene.trail s) <? 400)%nat
        then SLAMScene.trail s ++ [pos]
        else tl (SLAMScene.trail s) ++ [pos]) /\
     SLAMScene.totalDistance s' = SLAMScene.totalDistance s + extra) /\
  (SLAMScene.trail s <> [] -> (0.01 <? extra) = false ->
     SLAMScene.trail s' = SLAMScene.trail s /\
     SLAMScene.totalDistance s' = SLAMScene.totalDistance s).
Proof.
  intros Hlen pos s' extra.
  assert (Es : s' = SLAMScene.tick (SLAMScene.Camera position forward) s)
    by reflexivity.
  cbn [SLAMScene.tick] in Es. cbv zeta in Es.
  fold pos in Es.
  change (if (0 <? length (SLAMScene.trail s))%nat then _ else 0)
    with extra in Es.
  clearbody s'. split; [|split].
  - intros E. unfold extra, SLAMScene.extra_of in Es. rewrite E in Es.
    cbn in Es. subst s'. split; reflexivity.
  - intros Hne Hx. change SLAMScene.MOVE_THRESHOLD with 0.01 in Es.
    rewrite Hx in Es. cbn [orb] in Es.
    rewrite (above_threshold_positive extra Hx) in Es. subst s'.
    cbn [SLAMScene.trail SLAMScene.totalDistance]. split; [|reflexivity].
    destruct (Nat.ltb_spec (length (SLAMScene.trail s)) 400) as [L|L].
    + now apply slice_last_append.
    + apply slice_last_full. lia.
  - intros Hne Hx. change SLAMScene.MOVE_THRESHOLD with 0.01 in Es.
    rewrite Hx in Es. cbn [orb] in Es.
    destruct (SLAMScene.trail s) as [|a l] eqn:E; [contradiction|].
    cbn [length Nat.eqb] in Es. subst s'. split; reflexivity.
Qed.

(** A pose with a [NaN] coordinate is never recorded on a non-empty
    trail, and once the last recorded point has a [NaN] coordinate no
    later pose is recorded either: trail and distance stay as they are. *)
Theorem nan_pose_not_recorded (p : SLAMScene.Poll) (s : SLAMScene.Scene) :
  SLAMScene.trail s <> [] ->
  (match p with
   | SLAMScene.Camera position _ =>
     SLAMScene.has_nan (SLAMScene.nullish position (Vec3.mk 0 0 0))
   | _ => True
   end \/
   SLAMScene.has_nan (List.last (SLAMScene.trail s) (Vec3.mk 0 0 0))) ->
  SLAMScene.trail (SLAMScene.tick p s) = SLAMScene.trail s /\
  SLAMScene.totalDistance (SLAMScene.tick p s) = SLAMScene.totalDistance s.
Proof.
  intros Hne H.
  destruct p as [| |position forward]; cbn [SLAMScene.tick];
    try (split; reflexivity).
  cbv zeta.
  change (if (0 <? length (SLAMScene.trail s))%nat then _ else 0)
    with (SLAMScene.extra_of (SLAMScene.nullish position (Vec3.mk 0 0 0))
            (SLAMScene.trail s)).
  rewrite extra_of_nan by assumption.
  change (SLAMScene.MOVE_THRESHOLD <? nan) with false. cbn [orb].
  destruct (SLAMScene.trail s) as [|a l] eqn:E; [contradiction|].
  cbn [length Nat.eqb]. split; reflexivity.
Qed.

(** Hence a first pose with a [NaN] coordinate freezes the scene's
    record: along every later run of polls the trail and the distance
    never change again. *)
Theorem nan_point_freezes_trail (ps : list SLAMScene.Poll)
  (s : SLAMScene.Scene) :
  SLAMScene.trail s <> [] ->
  SLAMScene.has_nan (List.last (SLAMScene.trail s) (Vec3.mk 0 0 0)) ->
  SLAMScene.trail (SLAMScene.run s ps) = SLAMScene.trail s /\
  SLAMScene.totalDistance (SLAMScene.run s ps) = SLAMScene.totalDistance s.
Proof.
  revert s. induction ps as [|p ps IH]; intros s Hne Hn; [now split|].
  cbn [SLAMScene.run fold_left].
  assert (T : SLAMScene.trail (SLAMScene.tick p s) = SLAMScene.trail s /\
              SLAMScene.totalDistance (SLAMScene.tick p s)
              = SLAMScene.totalDistance s).
  { destruct p as [| |position forward]; cbn [SLAMScene.tick];
      try (split; reflexivity).
    cbv zeta.
    change (if (0 <? length (SLAMScene.trail s))%nat then _ else 0)
      with (SLAMScene.extra_of (SLAMScene.nullish position (Vec3.mk 0 0 0))
              (SLAMScene.trail s)).
    rewrite extra_of_nan by (assumption || now right).
    change (SLAMScene.MOVE_THRESHOLD <? nan) with false. cbn [orb].
    destruct (SLAMScene.trail s) as [|a l] eqn:E; [contradiction|].
    cbn [length Nat.eqb]. split; reflexivity. }
  destruct T as [Tt Td].
  destruct (IH (SLAMScene.tick p s)) as [It Id];
    [now rewrite Tt|now rewrite Tt|].
  fold (SLAMScene.run (SLAMScene.tick p s) ps).
  now rewrite It, Id, Tt, Td.
Qed.

(** ** The two earlier versions *)

(** Subtracting [+0] changes nothing. *)
Lemma sub_zero (v : float) : v - 0 = v.
Proof.
  apply Prim2SF_inj. rewrite sub_spec.
  change (Prim2SF 0) with (S754_zero false). unfold SF64sub, SFsub.
  destruct (Prim2SF v) as [s|s| |s m x]; try reflexivity.
  now destruct s.
Qed.

(** The last element of a list with a head does not need the default. *)
Lemma last_cons_default {A : Type} (a d : A) (l : list A) :
  List.last (a :: l) d = List.last l a.
Proof.
  revert a d. induction l as [|b l IH]; intros a d; [reflexivity|].
  change (List.last (a :: b :: l) d) with (List.last (b :: l) d).
  rewrite IH. symmetry. apply IH.
Qed.

(** A callback of the second version other than Calibrate keeps the
    bias. *)
Lemma V2_dispatch_bias (s : App) (e : Event) :
  e <> PressCalibrate -> biasRef (V2.dispatch s e) = biasRef s.
Proof.
  intros He. destruct e as [now data|data| | | |]; cbn [V2.dispatch];
    try reflexivity; [|contradiction].
  unfold V2.accelListener, V2.updateDeadReckoning.
  cbn [isTracking lastTimeRef setAccel].
  destruct (isTracking s); [|reflexivity].
  destruct (lastTimeRef s); reflexivity.
Qed.

(** The first version is the second version never calibrated: from a
    state with no bias on x and y, any callbacks other than Calibrate lead
    both versions to the same state. *)
Theorem first_version_is_uncalibrated_second (s : App) (es : list Event) :
  Vec3.x (biasRef s) = 0 -> Vec3.y (biasRef s) = 0 ->
  ~ In PressCalibrate es ->
  V1.run s es = V2.run s es.
Proof.
  revert s. induction es as [|e es IH]; intros s Hx Hy Hn; [reflexivity|].
  assert (He : e <> PressCalibrate) by (intros ->; apply Hn; now left).
  assert (E : V1.dispatch s e = V2.dispatch s e).
  { destruct e as [now data|data| | | |]; try reflexivity; [|contradiction].
    cbn [V1.dispatch V2.dispatch].
    unfold V1.accelListener, V2.accelListener, V1.updateDeadReckoning,
      V2.updateDeadReckoning.
    cbn [isTracking lastTimeRef biasRef setAccel set_lastTimeRef].
    rewrite Hx, Hy, !sub_zero. reflexivity. }
  cbn [V1.run V2.run fold_left]. rewrite E.
  apply IH.
  - rewrite (V2_dispatch_bias s e He). exact Hx.
  - rewrite (V2_dispatch_bias s e He). exact Hy.
  - intros H. apply Hn. now right.
Qed.

(** In the second version every accelerometer sample after the bootstrap
    integrates and appends its position, whatever its timestamp: after
    Start, a bootstrap sample and [k] further samples the trajectory has
    [k + 1] points, its last point is the current position, and the last
    timestamp is that of the latest sample. *)
Theorem every_sample_is_recorded (s : App) (t0 : float) (d0 : Vec3.t)
  (samples : list (float * Vec3.t)) :
  let es := map (fun td => AccelSample (fst td) (snd td)) samples in
  let s' := V2.run (V2.handleStart s) (AccelSample t0 d0 :: es) in
  length (path s') = S (length samples) /\
  List.last (path s') origin = positionRef s' /\
  lastTimeRef s' = Some (List.last (map fst samples) t0) /\
  isTracking s' = true.
Proof.
  cbv zeta.
  assert (H : forall samples s1 t1,
            isTracking s1 = true -> lastTimeRef s1 = Some t1 ->
            List.last (path s1) origin = positionRef s1 ->
            let s' := V2.run s1
                        (map (fun td => AccelSample (fst td) (snd td))
                           samples) in
            length (path s') = (length (path s1) + length samples)%nat /\
            List.last (path s') origin = positionRef s' /\
            lastTimeRef s' = Some (List.last (map fst samples) t1) /\
            isTracking s' = true).
  { clear. induction samples as [|[t d] samples IH]; intros s1 t1 Htr Hl Hp.
    - cbn. repeat split; auto.
    - cbv zeta. cbn [map V2.run fold_left fst snd V2.dispatch].
      set (s2 := V2.accelListener t d s1).
      assert (E : isTracking s2 = true /\ lastTimeRef s2 = Some t /\
                  List.last (path s2) origin = positionRef s2 /\
                  length (path s2) = S (length (path s1))).
      { unfold s2, V2.accelListener, V2.updateDeadReckoning.
        cbn [isTracking lastTimeRef setAccel]. rewrite Htr, Hl. cbv zeta.
        cbn [isTracking lastTimeRef path positionRef setPath
             set_positionRef set_velocityRef set_lastTimeRef setAccel].
        rewrite last_last, length_app. cbn [length].
        repeat split; [exact Htr|lia]. }
      destruct E as (Htr2 & Hl2 & Hp2 & Hn2).
      destruct (IH s2 t Htr2 Hl2 Hp2) as (I1 & I2 & I3 & I4).
      fold (V2.run s2 (map (fun td => AccelSample (fst td) (snd td)) samples)).
      repeat split; try assumption.
      + rewrite I1, Hn2. cbn [length]. lia.
      + rewrite I3. cbn [map fst]. now rewrite last_cons_default. }
  cbn [V2.run fold_left V2.dispatch].
  destruct (H samples (V2.accelListener t0 d0 (V2.handleStart s)) t0)
    as (I1 & I2 & I3 & I4); try reflexivity.
  repeat split; assumption.
Qed.

(** In every state the second version can reach, the trajectory starts at
    [{0,0}] and ends at the current position. *)
Theorem path_ends_at_position (s : App) :
  V2.reachable s ->
  (exists rest, path s = Point.mk 0 0 :: rest) /\
  List.last (path s) origin = positionRef s.
Proof.
  intros Hr. induction Hr as [|s e Hr [[rest Hp] Hl]].
  - split; [now exists []|reflexivity].
  - destruct e as [now data|data| | | |]; cbn [V2.dispatch];
      try (split; [now exists rest|exact Hl]);
      try (split; [now exists []|reflexivity]).
    unfold V2.accelListener, V2.updateDeadReckoning.
    cbn [isTracking lastTimeRef setAccel].
    destruct (isTracking s); [|split; [now exists rest|exact Hl]].
    destruct (lastTimeRef s); [|split; [now exists rest|exact Hl]].
    cbv zeta.
    cbn [path positionRef setPath set_positionRef set_velocityRef
         set_lastTimeRef setAccel].
    rewrite Hp. split.
    + eexists. cbn [app]. reflexivity.
    + change (Point.mk 0 0 :: rest ++ [?p]) with ((Point.mk 0 0 :: rest) ++ [p]).
      now rewrite last_last.
Qed.

(** ** Further instances *)

(** The mirrors hold after a calibration and a tracked sample. *)
Lemma display_mirrors_refs_witness :
  let s := dispatch Engine.cos Engine.sin Engine.hypot
             (dispatch Engine.cos Engine.sin Engine.hypot
                (dispatch Engine.cos Engine.sin Engine.hypot initial
                   (AccelSample 1700000000000 (Vec3.mk 0.2 (-0.1) 9.8)))
                PressCalibrate)
             (GyroSample (Vec3.mk 0 0 0.5)) in
  reachable Engine.cos Engine.sin Engine.hypot s /\
  bias s = biasRef s /\
  totalDistance s = totalDistanceRef s /\
  gyro s = gyroRef s.
Proof.
  intros s.
  assert (H : reachable Engine.cos Engine.sin Engine.hypot s)
    by (repeat apply reachable_dispatch; apply reachable_initial).
  destruct (display_mirrors_refs Engine.cos Engine.sin Engine.hypot s H)
    as (H1 & H2 & H3 & _).
  exact (conj H (conj H1 (conj H2 H3))).
Defined.

(** An integration step keeps the calibrated bias. *)
Lemma bias_changes_only_on_calibrate_witness :
  let s := run Engine.cos Engine.sin Engine.hypot initial
             [AccelSample 1700000000000 (Vec3.mk 0.2 (-0.1) 9.8);
              PressCalibrate; PressStart;
              AccelSample 1700000000050 (Vec3.mk 1 0 9.8)] in
  let e := AccelSample 1700000000100 (Vec3.mk 1 0 9.8) in
  e <> PressCalibrate /\
  biasRef (dispatch Engine.cos Engine.sin Engine.hypot s e) = biasRef s.
Proof.
  intros s e.
  assert (H : e <> PressCalibrate) by discriminate.
  exact (conj H (proj1 (bias_changes_only_on_calibrate Engine.cos Engine.sin
                          Engine.hypot s e H))).
Defined.

(** After one small step the trajectory still ends at the origin, 2.45 mm
    from the position. *)
Lemma path_end_near_position_witness :
  let s := dispatch Engine.cos Engine.sin Engine.hypot
             (dispatch Engine.cos Engine.sin Engine.hypot
                (dispatch Engine.cos Engine.sin Engine.hypot initial
                   PressStart)
                (AccelSample 1700000000000 (Vec3.mk 1 0 9.8)))
             (AccelSample 1700000000050 (Vec3.mk 1 0 9.8)) in
  let q := List.last (path s) origin in
  let p := positionRef s in
  reachable Engine.cos Engine.sin Engine.hypot s /\
  (q = p \/
   (threshold <? Engine.hypot (Point.x p - Point.x q) (Point.y p - Point.y q))
   = false).
Proof.
  intros s q p.
  assert (H : reachable Engine.cos Engine.sin Engine.hypot s)
    by (repeat apply reachable_dispatch; apply reachable_initial).
  exact (conj H (path_end_near_position Engine.cos Engine.sin Engine.hypot
                   s H)).
Defined.

(** A phone lying still after calibration, three samples. *)
Lemma stationary_stays_at_origin_witness :
  let s0 := run Engine.cos Engine.sin Engine.hypot initial
              [AccelSample 1700000000000 (Vec3.mk 0.2 (-0.1) 9.8);
               PressCalibrate] in
  let ts := [1700000000150; 1700000000200] in
  let s := run Engine.cos Engine.sin Engine.hypot (handleStart s0)
             (feed (Vec3.mk 0.2 (-0.1) 9.8) (1700000000100 :: ts)) in
  Engine.cos 0 = 1 /\ Engine.sin 0 = 0 /\ Engine.hypot 0 0 = 0 /\
  isFinite (Vec3.x (biasRef s0)) = true /\
  isFinite (Vec3.y (biasRef s0)) = true /\
  Vec3.z (gyroRef s0) = 0 /\
  (forall t t', In t (1700000000100 :: ts) -> In t' (1700000000100 :: ts) ->
                isFinite ((t' - t) / 1000) = true) /\
  path s = [Point.mk 0 0] /\ totalDistance s = 0.
Proof.
  intros s0 ts s.
  assert (Hf : forall t t', In t (1700000000100 :: ts) ->
                 In t' (1700000000100 :: ts) ->
                 isFinite ((t' - t) / 1000) = true).
  { intros t t' [<-|[<-|[<-|[]]]] [<-|[<-|[<-|[]]]]; vm_compute;
      reflexivity. }
  destruct (stationary_stays_at_origin Engine.cos Engine.sin Engine.hypot
              s0 9.8 1700000000100 ts
              eq_refl eq_refl eq_refl eq_refl eq_refl eq_refl Hf)
    as (H1 & H2 & _).
  repeat split; try reflexivity; assumption.
Defined.

(** A pose 5 cm from the only recorded point is recorded. *)
Lemma trail_sampler_witness :
  let s := SLAMScene.run SLAMScene.initial
             [SLAMScene.Camera (Some (Vec3.mk 0 0 0)) None] in
  let s' := SLAMScene.tick
              (SLAMScene.Camera (Some (Vec3.mk 0.03 0 0.04)) None) s in
  (length (SLAMScene.trail s) <= 400)%nat /\
  SLAMScene.trail s <> [] /\
  (0.01 <? SLAMScene.extra_of (Vec3.mk 0.03 0 0.04) (SLAMScene.trail s))
  = true /\
  SLAMScene.trail s' = [Vec3.mk 0 0 0; Vec3.mk 0.03 0 0.04].
Proof.
  intros s s'.
  assert (H1 : (length (SLAMScene.trail s) <= 400)%nat) by (cbn; lia).
  assert (H2 : SLAMScene.trail s <> []) by discriminate.
  assert (H3 : (0.01 <? SLAMScene.extra_of (Vec3.mk 0.03 0 0.04)
                          (SLAMScene.trail s)) = true)
    by (vm_compute; reflexivity).
  exact (conj H1 (conj H2 (conj H3
           (proj1 (proj1 (proj2 (trail_sampler (Some (Vec3.mk 0.03 0 0.04))
                                   None s H1)) H2 H3))))).
Defined.

(** A pose whose y is [NaN] is skipped. *)
Lemma nan_pose_not_recorded_witness :
  let s := SLAMScene.run SLAMScene.initial
             [SLAMScene.Camera (Some (Vec3.mk 0 0 0)) None] in
  let p := SLAMScene.Camera (Some (Vec3.mk 1 nan 0)) None in
  SLAMScene.trail s <> [] /\
  SLAMScene.has_nan (Vec3.mk 1 nan 0) /\
  SLAMScene.trail (SLAMScene.tick p s) = SLAMScene.trail s.
Proof.
  intros s p.
  assert (H1 : SLAMScene.trail s <> []) by discriminate.
  assert (H2 : SLAMScene.has_nan (Vec3.mk 1 nan 0))
    by (right; left; reflexivity).
  exact (conj H1 (conj H2
           (proj1 (nan_pose_not_recorded p s H1 (or_introl H2))))).
Defined.

(** A first pose with a [NaN] x, then two good poses a metre apart. *)
Lemma nan_point_freezes_trail_witness :
  let s := SLAMScene.run SLAMScene.initial
             [SLAMScene.Camera (Some (Vec3.mk nan 0 0)) None] in
  let ps := [SLAMScene.Camera (Some (Vec3.mk 0 0 0)) None;
             SLAMScene.Camera (Some (Vec3.mk 1 0 0)) None] in
  SLAMScene.trail s <> [] /\
  SLAMScene.has_nan (List.last (SLAMScene.trail s) (Vec3.mk 0 0 0)) /\
  SLAMScene.trail (SLAMScene.run s ps) = SLAMScene.trail s /\
  SLAMScene.totalDistance (SLAMScene.run s ps) = SLAMScene.totalDistance s.
Proof.
  intros s ps.
  assert (H1 : SLAMScene.trail s <> []) by discriminate.
  assert (H2 : SLAMScene.has_nan
                 (List.last (SLAMScene.trail s) (Vec3.mk 0 0 0)))
    by (left; reflexivity).
  exact (conj H1 (conj H2 (nan_point_freezes_trail ps s H1 H2))).
Defined.

(** Both versions on the same uncalibrated run. *)
Lemma first_version_is_uncalibrated_second_witness :
  let es := [PressStart;
             AccelSample 1700000000000 (Vec3.mk 1 0 9.8);
             AccelSample 1700000000050 (Vec3.mk 1 0.5 9.8);
             PressStop] in
  Vec3.x (biasRef initial) = 0 /\ Vec3.y (biasRef initial) = 0 /\
  ~ In PressCalibrate es /\
  V1.run initial es = V2.run initial es.
Proof.
  intros es.
  assert (H : ~ In PressCalibrate es).
  { intros [H|[H|[H|[H|[]]]]]; discriminate. }
  exact (conj eq_refl (conj eq_refl (conj H
           (first_version_is_uncalibrated_second initial es
              eq_refl eq_refl H)))).
Defined.

(** The second version after Start and two samples. *)
Lemma path_ends_at_position_witness :
  let s := V2.dispatch
             (V2.dispatch
                (V2.dispatch initial PressStart)
                (AccelSample 1700000000000 (Vec3.mk 1 0 9.8)))
             (AccelSample 1700000000050 (Vec3.mk 1 0 9.8)) in
  V2.reachable s /\ List.last (path s) origin = positionRef s.
Proof.
  intros s.
  assert (H : V2.reachable s)
    by (repeat apply V2.reachable_dispatch; apply V2.reachable_initial).
  exact (conj H (proj2 (path_ends_at_position s H))).
Defined.
